(** * Session-sharing relay of tlink: registry, handshake, broadcast,
    input routing, lifecycle, the Electron IPC glue of [app/lib/app.ts]
    and the [SessionSharingDecorator] of the terminal plugin. *)

From stdpp Require Import base gmap strings list.
From Stdlib Require Import ZArith QArith Sorted.

Open Scope Z_scope.

(* ================================================================== *)
(** ** The relay server *)
(* ================================================================== *)

Module Relay.

(** Modelled from the spec: [sessionSharingServer.ts] (imported by
    [app/lib/app.ts] as [getSessionSharingServer], not under src/).
    Its data model follows section 3 of the spec: a SharedSession with
    id, token, optional password, mode, optional expiresAt and the
    insertion-ordered set of viewer connections. *)
Inductive mode := ReadOnly | Interactive.

Record session := mkSession {
  s_id : string;
  s_token : string;
  s_password : option string;
  s_mode : mode;
  s_expiresAt : option Z;        (* milliseconds, like Date.now() *)
  s_viewers : list nat;          (* a JS Set of connection handles *)
}.

(** Modelled from the spec: a ViewerConnection and its transport. The
    back-reference [c_session] is set at a successful handshake; [c_log]
    is what the transport has delivered, in order; [c_broken] is a
    failure of the peer that a write discovers. *)
Record conn := mkConn {
  c_session : option string;
  c_log : list string;
  c_open : bool;
  c_broken : bool;
}.

Record server := mkServer {
  sessions : gmap string session;
  conns : gmap nat conn;
  running : bool;
  port : Z;
  host : string;
}.

(** Notifications emitted to the host ([process.emit] in the source). *)
Inductive event :=
  | ViewerJoined (sid : string) (count : nat)
  | ViewerLeft (sid : string) (count : nat)
  | Input (sid : string) (data : string).

Definition set_sessions (m : gmap string session) (st : server) : server :=
  mkServer m (conns st) (running st) (port st) (host st).
Definition set_conns (m : gmap nat conn) (st : server) : server :=
  mkServer (sessions st) m (running st) (port st) (host st).
Definition set_viewers (vs : list nat) (s : session) : session :=
  mkSession (s_id s) (s_token s) (s_password s) (s_mode s) (s_expiresAt s) vs.

Definition mem (c : nat) (l : list nat) : bool := existsb (Nat.eqb c) l.

(** [Set.prototype.add]: no duplicate, insertion order kept. *)
Definition set_add (c : nat) (l : list nat) : list nat :=
  if mem c l then l else l ++ [c].

Definition close_conn (c : nat) (m : gmap nat conn) : gmap nat conn :=
  match m !! c with
  | Some cn => <[c := mkConn (c_session cn) (c_log cn) false (c_broken cn)]> m
  | None => m
  end.

Definition is_closed (c : nat) (m : gmap nat conn) : bool :=
  match m !! c with Some cn => negb (c_open cn) | None => true end.

(** Lazy expiration test: [expiresAt] is in the past. *)
Definition expired (now : Z) (s : session) : bool :=
  match s_expiresAt s with Some e => e <? now | None => false end.

(** [register(sessionId, token, mode, password?, expiresInSeconds?)]:
    overwrites any entry of the same id. *)
Definition register (now : Z) (sid token : string) (md : mode)
    (pw : option string) (expiresIn : option Z) (st : server) : server :=
  set_sessions
    (<[sid := mkSession sid token pw md
               (match expiresIn with Some n => Some (now + n * 1000) | None => None end)
               []]> (sessions st)) st.

(** Removing the viewers one by one, each removal announced with the
    count that remains. *)
Fixpoint drop_viewers (sid : string) (vs : list nat) (m : gmap nat conn)
    : gmap nat conn * list event :=
  match vs with
  | [] => (m, [])
  | c :: rest =>
      let '(m', evs) := drop_viewers sid rest (close_conn c m) in
      (m', ViewerLeft sid (length rest) :: evs)
  end.

(** [unregister(sessionId)]: removes the entry and closes every viewer;
    no-op on an unknown id. *)
Definition unregister (sid : string) (st : server) : server * list event :=
  match sessions st !! sid with
  | None => (st, [])
  | Some s =>
      let '(m', evs) := drop_viewers sid (s_viewers s) (conns st) in
      (mkServer (delete sid (sessions st)) m' (running st) (port st) (host st), evs)
  end.

(** [lookup(sessionId)], expiring lazily. *)
Definition lookup (now : Z) (sid : string) (st : server) : option session :=
  match sessions st !! sid with
  | Some s => if expired now s then None else Some s
  | None => None
  end.

Definition viewerCount (sid : string) (st : server) : nat :=
  match sessions st !! sid with
  | Some s => length (s_viewers s)
  | None => 0%nat
  end.

Definition viewers_of (sid : string) (st : server) : list nat :=
  match sessions st !! sid with Some s => s_viewers s | None => [] end.

(** The attach URL's query: [?sessionId=..&token=..[&password=..]]. *)
Record query := mkQuery {
  q_sessionId : option string;
  q_token : option string;
  q_password : option string;
}.

Definition password_ok (s : session) (q : query) : bool :=
  match s_password s with
  | None => true
  | Some p => match q_password q with Some p' => String.eqb p p' | None => false end
  end.

Definition token_ok (s : session) (q : query) : bool :=
  match q_token q with Some t => String.eqb (s_token s) t | None => false end.

(** The handshake decision: the session found, token, password, expiry. *)
Definition check_handshake (now : Z) (q : query) (st : server)
    : option (string * session) :=
  match q_sessionId q with
  | None => None
  | Some sid =>
      match sessions st !! sid with
      | None => None
      | Some s =>
          if token_ok s q && password_ok s q && negb (expired now s)
          then Some (sid, s) else None
      end
  end.

(** An inbound connection [c] with query [q]: rejected by closing [c]
    and nothing else; on success [c] joins the session's viewers and a
    viewer-joined notification carries the new count. *)
Definition handshake (now : Z) (c : nat) (q : query) (st : server)
    : server * list event :=
  match check_handshake now q st with
  | None =>
      (set_conns (<[c := mkConn None [] false false]> (conns st)) st, [])
  | Some (sid, s) =>
      let vs := set_add c (s_viewers s) in
      let st1 := set_sessions (<[sid := set_viewers vs s]> (sessions st)) st in
      (set_conns (<[c := mkConn (Some sid) [] true false]> (conns st1)) st1,
       [ViewerJoined sid (length vs)])
  end.

(** A write succeeds on an open, healthy transport. *)
Definition writable (c : nat) (m : gmap nat conn) : bool :=
  match m !! c with Some cn => c_open cn && negb (c_broken cn) | None => false end.

Definition write_conn (c : nat) (data : string) (m : gmap nat conn) : gmap nat conn :=
  match m !! c with
  | Some cn => <[c := mkConn (c_session cn) (c_log cn ++ [data]) (c_open cn) (c_broken cn)]> m
  | None => m
  end.

(** One pass over a snapshot of the viewer set: healthy viewers get the
    bytes and are kept; a failing one is closed, dropped, and its loss
    announced with the size the set has after the removal. *)
Fixpoint deliver (sid data : string) (vs kept : list nat) (m : gmap nat conn)
    : list nat * gmap nat conn * list event :=
  match vs with
  | [] => (kept, m, [])
  | c :: rest =>
      if writable c m then deliver sid data rest (kept ++ [c]) (write_conn c data m)
      else
        let '(k, m', evs) := deliver sid data rest kept (close_conn c m) in
        (k, m', ViewerLeft sid (length kept + length rest) :: evs)
  end.

(** [broadcastOutput(sessionId, bytes)]; a silent no-op on an unknown id. *)
Definition broadcastOutput (sid data : string) (st : server) : server * list event :=
  match sessions st !! sid with
  | None => (st, [])
  | Some s =>
      let '(kept, m', evs) := deliver sid data (s_viewers s) [] (conns st) in
      (mkServer (<[sid := set_viewers kept s]> (sessions st)) m' (running st) (port st) (host st),
       evs)
  end.

(** Input Router: bytes received on connection [c]. Only a viewer of an
    interactive session produces an [Input] notification; nothing else
    changes. *)
Definition viewerMessage (c : nat) (data : string) (st : server) : server * list event :=
  match conns st !! c with
  | Some cn =>
      match c_session cn with
      | Some sid =>
          match sessions st !! sid with
          | Some s =>
              if mem c (s_viewers s) then
                match s_mode s with
                | Interactive => (st, [Input sid data])
                | ReadOnly => (st, [])
                end
              else (st, [])
          | None => (st, [])
          end
      | None => (st, [])
      end
  | None => (st, [])
  end.

(** Sequential [broadcastOutput] calls on one session. *)
Fixpoint broadcast_seq (sid : string) (ds : list string) (st : server) : server :=
  match ds with
  | [] => st
  | d :: rest => broadcast_seq sid rest (broadcastOutput sid d st).1
  end.

(** The peer of [c] goes away without a close frame: the next write fails. *)
Definition break_transport (c : nat) (st : server) : server :=
  match conns st !! c with
  | Some cn => set_conns (<[c := mkConn (c_session cn) (c_log cn) (c_open cn) true]> (conns st)) st
  | None => st
  end.

(** Expiration sweep: every session past [expiresAt] is unregistered. *)
Definition expired_ids (now : Z) (m : gmap string session) : list string :=
  map fst (map_to_list (filter (fun kv => expired now kv.2 = true) m)).

Definition unregister_step (acc : server * list event) (sid : string) : server * list event :=
  let '(st', evs') := unregister sid acc.1 in (st', acc.2 ++ evs').

Definition unregister_all (ids : list string) (st : server) : server * list event :=
  fold_left unregister_step ids (st, []).

Definition sweepExpired (now : Z) (st : server) : server * list event :=
  unregister_all (expired_ids now (sessions st)) st.

(** What can happen to the relay between two checks, each at a time. *)
Inductive op :=
  | OpRegister (sid token : string) (md : mode) (pw : option string) (expiresIn : option Z)
  | OpUnregister (sid : string)
  | OpConnect (c : nat) (q : query)
  | OpBroadcast (sid data : string)
  | OpViewerMessage (c : nat) (data : string)
  | OpBreak (c : nat)
  | OpSweep.

Definition exec_op (now : Z) (o : op) (st : server) : server * list event :=
  match o with
  | OpRegister sid tok md pw ex => (register now sid tok md pw ex st, [])
  | OpUnregister sid => unregister sid st
  | OpConnect c q => handshake now c q st
  | OpBroadcast sid d => broadcastOutput sid d st
  | OpViewerMessage c d => viewerMessage c d st
  | OpBreak c => (break_transport c st, [])
  | OpSweep => sweepExpired now st
  end.

Fixpoint run_ops (ops : list (Z * op)) (st : server) : server * list event :=
  match ops with
  | [] => (st, [])
  | (t, o) :: rest =>
      let '(st1, e1) := exec_op t o st in
      let '(st2, e2) := run_ops rest st1 in
      (st2, e1 ++ e2)
  end.

Definition registers (sid : string) (o : op) : bool :=
  match o with OpRegister sid' _ _ _ _ => String.eqb sid sid' | _ => false end.

(** The operating system's side of binding: ports taken, the port it
    hands out for port 0, the addresses of the machine. *)
Record net := mkNet {
  in_use : list Z;
  ephemeral : Z;
  hosts : list string;
}.

Definition bind_error (p : Z) (h : string) (nt : net) : option string :=
  if negb (existsb (String.eqb h) (hosts nt)) then Some "EADDRNOTAVAIL"%string
  else if (p <? 0) || (65535 <? p) then Some "ERR_SOCKET_BAD_PORT"%string
  else if existsb (Z.eqb (if p =? 0 then ephemeral nt else p)) (in_use nt)
  then Some "EADDRINUSE"%string
  else None.

(** [start(port, host)]: resolves to the bound port or rejects with an
    error; a no-op returning the existing port while running. *)
Definition start (p : Z) (h : string) (st : server) (nt : net)
    : server * net * (Z + string) :=
  if running st then (st, nt, inl (port st))
  else
    match bind_error p h nt with
    | Some e => (st, nt, inr e)
    | None =>
        let bp := if p =? 0 then ephemeral nt else p in
        (mkServer (sessions st) (conns st) true bp h,
         mkNet (bp :: in_use nt) (ephemeral nt) (hosts nt),
         inl bp)
    end.

(** [stop()]: closes every transport and tears every session down; a
    no-op while stopped. *)
Definition stop (st : server) (nt : net) : server * net :=
  if running st then
    (mkServer ∅ ((fun cn => mkConn (c_session cn) (c_log cn) false (c_broken cn)) <$> conns st)
       false 0 "0.0.0.0",
     mkNet (filter (fun q => negb (q =? port st)) (in_use nt)) (ephemeral nt) (hosts nt))
  else (st, nt).

(** The handshake acceptance condition, in the spec's words. *)
Definition accepts (now : Z) (q : query) (sid : string) (st : server) : Prop :=
  exists s, sessions st !! sid = Some s /\
    q_token q = Some (s_token s) /\
    (s_password s = None \/ q_password q = s_password s) /\
    (forall e, s_expiresAt s = Some e -> now <= e).

(** A connection after [bytes] is written to it. *)
Definition written (d : string) (cn : conn) : conn :=
  mkConn (c_session cn) (c_log cn ++ [d]) (c_open cn) (c_broken cn).

End Relay.

(* ================================================================== *)
(** ** The main-process IPC glue of [app/lib/app.ts] *)
(* ================================================================== *)

Module App.

(** Messages [Application.broadcast] sends to every window. *)
Inductive msg :=
  | ViewerCountChanged (sid : string) (count : nat)
  | TerminalInput (sid : string) (data : string)
  | ServerStatusChanged (isRunning : bool) (port : Z) (host : string).

(** [broadcast(event, ...args)]: [window.send] for each window. *)
Definition broadcast (windows : list nat) (m : msg) : list (nat * msg) :=
  map (fun w => (w, m)) windows.

(** The [process.on('session-sharing:...')] listeners of
    [initSessionSharing]: viewer-joined and viewer-left become
    viewer-count-changed, input becomes terminal-input. *)
Definition on_process_event (windows : list nat) (e : Relay.event) : list (nat * msg) :=
  match e with
  | Relay.ViewerJoined sid n => broadcast windows (ViewerCountChanged sid n)
  | Relay.ViewerLeft sid n => broadcast windows (ViewerCountChanged sid n)
  | Relay.Input sid d => broadcast windows (TerminalInput sid d)
  end.

Definition on_process_events (windows : list nat) (evs : list Relay.event) : list (nat * msg) :=
  concat (map (on_process_event windows) evs).

(** [ipcMain.on('session-sharing:forward-input')]: rebroadcast as
    terminal-input, with no look at the session. *)
Definition forward_input (windows : list nat) (sid data : string) : list (nat * msg) :=
  broadcast windows (TerminalInput sid data).

(** Bytes from viewer connection [c] through the relay and the host
    listeners: what the windows receive. *)
Definition viewer_bytes (windows : list nat) (c : nat) (data : string) (st : Relay.server)
    : Relay.server * list (nat * msg) :=
  let '(st', evs) := Relay.viewerMessage c data st in (st', on_process_events windows evs).

(** [this.configStore.sessionSharing || {}]: the two fields read. *)
Record sharing_config := mkConfig {
  cfg_bindHost : option string;
  cfg_port : option Z;
}.

(** JavaScript [a || b] on a string and on a number: the empty string
    and 0 are falsy. *)
Definition or_str (a : option string) (b : string) : string :=
  match a with Some x => if String.eqb x "" then b else x | None => b end.
Definition or_num (a : option Z) (b : Z) : Z :=
  match a with Some x => if x =? 0 then b else x | None => b end.

Inductive start_reply :=
  | StartOk (port : Z) (host : string)           (* {success: true, port, host} *)
  | StartFailed (error : string).                (* {success: false, error} *)

(** [ipcMain.handle('session-sharing:start-server', (_e, port?, host?))]. *)
Definition start_server (windows : list nat) (cfg : sharing_config)
    (p : option Z) (h : option string) (st : Relay.server) (nt : Relay.net)
    : Relay.server * Relay.net * start_reply * list (nat * msg) :=
  let bindHost := or_str h (or_str (cfg_bindHost cfg) "0.0.0.0") in
  let bindPort := or_num p (or_num (cfg_port cfg) 0) in
  match Relay.start bindPort bindHost st nt with
  | (st', nt', inl actualPort) =>
      (st', nt', StartOk actualPort bindHost,
       broadcast windows (ServerStatusChanged true actualPort bindHost))
  | (st', nt', inr e) => (st', nt', StartFailed e, [])
  end.

End App.

(* ================================================================== *)
(** ** [SessionSharingDecorator] (src/unnamed/part_010, lines 1-86) *)
(* ================================================================== *)

Module Decorator.

(** What [SessionSharingService.getSharedSession(terminal)] returns. *)
Record shared_session := mkShared {
  ss_id : string;
  ss_mode : Relay.mode;
}.

(** The terminals as the decorator sees them: the service's answer for
    each terminal and whether [terminal.session] is set. *)
Record env := mkEnv {
  getSharedSession : nat -> option shared_session;
  has_session : nat -> bool;
}.

Definition isSessionShared (e : env) (t : nat) : bool :=
  match getSharedSession e t with Some _ => true | None => false end.

(** The three subscriptions [attachToSharedSession] makes:
    [binaryOutput$] (with the session id it captured), [closed$] and
    [destroyed$]. *)
Inductive sub := OnOutput (sid : string) | OnClosed | OnDestroyed.

(** [sharedTerminals], and the decorator base class's per-terminal
    subscription lists, flattened. *)
Record dstate := mkD {
  sharedTerminals : gmap nat string;
  subscriptions : list (nat * sub);
}.

(** Modelled from the spec: [TerminalDecorator.subscribeUntilDetached]
    and [TerminalDecorator.detach] (the base class in [api/decorator],
    not under src/): the first records a subscription under the
    terminal, the second unsubscribes all of the terminal's
    subscriptions, as the name and the calls in part_010 state. *)
Definition subscribeUntilDetached (t : nat) (s : sub) (st : dstate) : dstate :=
  mkD (sharedTerminals st) (subscriptions st ++ [(t, s)]).

Definition base_detach (t : nat) (st : dstate) : dstate :=
  mkD (sharedTerminals st) (List.filter (fun ts => negb (Nat.eqb ts.1 t)) (subscriptions st)).

(** Calls the decorator makes on [SessionSharingService]. *)
Inductive call := CBroadcastOutput (sid data : string) | CStopSharing (t : nat).

Definition attachToSharedSession (e : env) (t : nat) (st : dstate) : dstate :=
  match getSharedSession e t with
  | None => st
  | Some ss =>
      if negb (has_session e t) then st
      else match sharedTerminals st !! t with
           | Some _ => st                          (* already attached *)
           | None =>
               let st1 := mkD (<[t := ss_id ss]> (sharedTerminals st)) (subscriptions st) in
               let st2 := subscribeUntilDetached t (OnOutput (ss_id ss)) st1 in
               (* interactive mode: only a debug log *)
               let st3 := subscribeUntilDetached t OnClosed st2 in
               subscribeUntilDetached t OnDestroyed st3
           end
  end.

Definition attach (e : env) (t : nat) (st : dstate) : dstate :=
  if isSessionShared e t then attachToSharedSession e t st else st.

Definition detachFromSharedSession (t : nat) (st : dstate) : dstate :=
  match sharedTerminals st !! t with
  | None => st
  | Some _ => mkD (delete t (sharedTerminals st)) (subscriptions st)
  end.

Definition detach (t : nat) (st : dstate) : dstate :=
  base_detach t (detachFromSharedSession t st).

(** What happens to a terminal: the host attaches or detaches the
    decorator, or the terminal's session emits. *)
Inductive tevent :=
  | Attach (t : nat) | Detach (t : nat)
  | Output (t : nat) (data : string) | Closed (t : nat) | Destroyed (t : nat).

(** The live subscriptions reacting to an emission, in subscription
    order. *)
Definition react (t : nat) (k : sub -> option call) (st : dstate) : list call :=
  omap (fun ts => if Nat.eqb ts.1 t then k ts.2 else None) (subscriptions st).

Definition step (e : env) (ev : tevent) (st : dstate) : dstate * list call :=
  match ev with
  | Attach t => (attach e t st, [])
  | Detach t => (detach t st, [])
  | Output t d =>
      (st, react t (fun s => match s with OnOutput sid => Some (CBroadcastOutput sid d) | _ => None end) st)
  | Closed t =>
      (st, react t (fun s => match s with OnClosed => Some (CStopSharing t) | _ => None end) st)
  | Destroyed t =>
      (st, react t (fun s => match s with OnDestroyed => Some (CStopSharing t) | _ => None end) st)
  end.

Definition init : dstate := mkD ∅ [].

Fixpoint run (e : env) (evs : list tevent) (st : dstate) : dstate * list call :=
  match evs with
  | [] => (st, [])
  | ev :: rest =>
      let '(st1, c1) := step e ev st in
      let '(st2, c2) := run e rest st1 in
      (st2, c1 ++ c2)
  end.

End Decorator.

(* ================================================================== *)
(** ** The host application's windows ([Application] in app.ts) *)
(* ================================================================== *)

Module Host.

(** What [Application] calls on a [Window] (window.ts, not under src/).
    The methods are left abstract; the theorems say what they assume of
    them. [wid] is the object's identity (the [x !== window] of the
    [closed$] handler) and [new_window n] the [n]-th
    [new Window(this, this.configStore, options)]. *)
Class WindowApi (W : Type) := {
  wid : W -> nat;
  isMainWindow : W -> bool;
  makeMain : W -> W;
  present : W -> W;
  hide : W -> W;
  isFocused : W -> bool;
  isVisible : W -> bool;
  isDockedOnTop : W -> bool;
  isDestroyed : W -> bool;
  new_window : nat -> W;
}.

(** [this.windows], and how many windows were created so far. *)
Record host (W : Type) := mkHost {
  windows : list W;
  created : nat;
}.
Arguments mkHost {W} _ _.
Arguments windows {W} _.
Arguments created {W} _.

(** A window opens ([newWindow]) or emits [closed$]. *)
Inductive wevent := WOpen | WClose (id : nat).

Section Windows.
Context {W : Type} `{WindowApi W}.

(** A method called on the window object [id] of [this.windows]: the
    object in the array is the one that changes. *)
Definition mutate (id : nat) (f : W -> W) (ws : list W) : list W :=
  map (fun x => if Nat.eqb (wid x) id then f x else x) ws.

(** [newWindow()]: push the new window; if it is the only one, make it
    the main window. *)
Definition newWindow (h : host W) : host W :=
  let w := new_window (created h) in
  let ws := windows h ++ [w] in
  let ws := if Nat.eqb (length ws) 1 then mutate (wid w) makeMain ws else ws in
  mkHost ws (S (created h)).

(** The [window.closed$] subscription of [newWindow]: drop the window;
    if no remaining window is the main one, [windows[0]?.makeMain()]
    and [windows[0]?.present()]. *)
Definition windowClosed (id : nat) (h : host W) : host W :=
  let ws := List.filter (fun x => negb (Nat.eqb (wid x) id)) (windows h) in
  let ws := if negb (existsb isMainWindow ws)
            then match ws with
                 | [] => []
                 | w0 :: rest => present (makeMain w0) :: rest
                 end
            else ws in
  mkHost ws (created h).

Definition wstep (h : host W) (ev : wevent) : host W :=
  match ev with WOpen => newWindow h | WClose id => windowClosed id h end.

Definition wrun (evs : list wevent) (h : host W) : host W := fold_left wstep evs h.

Definition host0 : host W := mkHost [] 0.

(** [hasWindows()]: [!!this.windows.length]. *)
Definition hasWindows (h : host W) : bool := negb (Nat.eqb (length (windows h)) 0).

(** [presentAllWindows()]. *)
Definition presentAllWindows (h : host W) : host W :=
  mkHost (map present (windows h)) (created h).

(** [handleSecondInstance(argv, cwd)]: the windows afterwards, and the
    window [passCliArguments] is called on,
    [this.windows[this.windows.length - 1]]. *)
Definition handleSecondInstance (h : host W) : host W * option W :=
  let h1 := if Nat.eqb (length (windows h)) 0 then newWindow h else h in
  let h2 := presentAllWindows h1 in
  (h2, nth_error (windows h2) (length (windows h2) - 1)).

(** [send(event, ...args)]: the windows afterwards, and the window
    whose [send] is called; [None] is the TypeError of calling [send]
    on [undefined], when every window is destroyed. *)
Definition send (h : host W) : host W * option W :=
  let h1 := if hasWindows h then h else newWindow h in
  (h1, head (List.filter (fun w => negb (isDestroyed w)) (windows h1))).

(** [onGlobalHotkey()]: the windows after the [hide()] or [present()]
    calls. *)
Definition onGlobalHotkey (ws : list W) : list W :=
  let isPresent := existsb (fun x => isFocused x && isVisible x) ws in
  let docked := existsb isDockedOnTop ws in
  let isPresent := if docked then existsb isVisible ws else isPresent in
  if isPresent then map hide ws else map present ws.

End Windows.
End Host.

(* ================================================================== *)
(** ** The [Application] constructor and the quit handlers *)
(* ================================================================== *)

Module Startup.

(** [process.platform]. *)
Inductive platform := Linux | Darwin | Win32 | OtherPlatform.

(** The fields of [configStore] the constructor reads; [None] stands
    for undefined (or null). *)
Record store := mkStore {
  appearance_opacity : option Q;
  hacks_disableGPU : bool;                   (* truthiness of hacks?.disableGPU *)
  flags : option (list (string * string));
}.

(** An [app.commandLine.appendSwitch(name, value?)] call. *)
Definition switch : Type := string * option string.

(** The switches the constructor appends, in order, and whether it
    called [app.disableHardwareAcceleration()]. [(o || 1) !== 1]: 0 is
    falsy. *)
Definition constructor_switches (pl : platform) (c : store) : list switch * bool :=
  let '(s1, hw1) :=
    (match pl with
    | Linux =>
        let o := match appearance_opacity c with
                 | Some q => if Qeq_bool q 0%Q then 1%Q else q
                 | None => 1%Q
                 end in
        if negb (Qeq_bool o 1%Q)
        then ([("no-sandbox", None); ("enable-transparent-visuals", None)], true)
        else ([("no-sandbox", None)], false)
    | _ => ([], false)
    end : list switch * bool) in
  let '(s2, hw2) :=
    (if hacks_disableGPU c then ([("disable-gpu", None)], true) else ([], false)
     : list switch * bool) in
  let fl := match flags c with Some l => l | None => [("force_discrete_gpu", "0")] end in
  (s1 ++ s2 ++
     [("disable-http-cache", None); ("max-active-webgl-contexts", Some "9000");
      ("lang", Some "EN")] ++
     map (fun f => (f.1, Some f.2)) fl,
   hw1 || hw2).

(** What the quit handlers touch: [quitRequested], the sharing server
    and the OS bindings, and whether [app.quit()] was called. *)
Record life := mkLife {
  quitRequested : bool;
  server : Relay.server;
  network : Relay.net;
  quitting : bool;
}.

(** [app.on('before-quit')]: stop the sharing server, set
    [quitRequested]. *)
Definition before_quit (l : life) : life :=
  let '(st, nt) := Relay.stop (server l) (network l) in
  mkLife true st nt (quitting l).

(** [app.on('window-all-closed')]. *)
Definition window_all_closed (pl : platform) (l : life) : life :=
  let not_darwin := match pl with Darwin => false | _ => true end in
  if quitRequested l || not_darwin
  then mkLife (quitRequested l) (server l) (network l) true
  else l.

End Startup.

(* ================================================================== *)
(** ** More IPC handlers of [initSessionSharing], and [init] *)
(* ================================================================== *)

Module Ipc.
Import Relay.


(** [Application.init()], its session-sharing part: when [autoStart]
    is set, start on [bindHost || '0.0.0.0'] and [port || 0]; a failure
    is only logged. ([startTunnelingService] only logs.) *)
Definition init (autoStart : bool) (cfg : App.sharing_config) (st : server) (nt : net)
    : server * net :=
  if autoStart then
    let bindHost := App.or_str (App.cfg_bindHost cfg) "0.0.0.0" in
    let port := App.or_num (App.cfg_port cfg) 0 in
    let '(st', nt', _) := start port bindHost st nt in (st', nt')
  else (st, nt).

End Ipc.

(* ================================================================== *)
(** ** The session-sharing and profile context menus (part_010) *)
(* ================================================================== *)

Module Menus.

(** [Math.round(ms / 60000)] for a whole number of milliseconds:
    floor(ms / 60000 + 1/2), halves rounding up. (The double quotient
    rounds to the same integer for any difference below 10^15 ms.) *)
Definition round_minutes (ms : Z) : Z := Z.div (2 * ms + 60000) 120000.

(** [View sharing details]: the [expiresIn] set on the modal, from
    [sharedSession.expiresAt.getTime()] and [Date.now()]. *)
Definition details_expiresIn (expiresAt : option Z) (now : Z) : option Z :=
  match expiresAt with
  | None => None
  | Some t =>
      let expiresIn := round_minutes (t - now) in
      if 0 <? expiresIn then Some expiresIn else None
  end.

Inductive notification :=
  | Notice (key : string)
  | Error (key : string) (param : option string).

(** The [ShareSessionModalComponent] fields set. *)
Record modal := mkModal {
  m_shareUrl : string;
  m_mode : Relay.mode;
  m_viewers : Z;
}.

(** How [sessionSharing.shareSession(tab, {mode})] settles: a URL, null,
    or a rejection with [error.message || error]. *)
Inductive share_result := Resolved (url : option string) | Rejected (message : string).

(** How the awaited [sessionSharing.copyShareableLink(tab)] settles: it
    resolves to a success flag (the "Copy share link" item tests it) or
    rejects with [error.message || error]. *)
Inductive copy_result := CopyResolved (success : bool) | CopyRejected (message : string).

(** [shareWithMode(tab, mode)]: the flag [copyShareableLink] resolves to
    is not looked at; only a rejection reaches the [catch]. *)
Definition shareWithMode (r : share_result) (copy : copy_result) (md : Relay.mode)
    : option modal * list notification :=
  match r with
  | Rejected e => (None, [Error "Failed to share session: {error}" (Some e)])
  | Resolved u =>
      let fail := (None, [Error "Failed to share session. Please check console for details." None]) in
      match u with
      | None => fail
      | Some url =>
          if String.eqb url "" then fail
          else match copy with
               | CopyRejected e => (None, [Error "Failed to share session: {error}" (Some e)])
               | CopyResolved _ => (Some (mkModal url md 0),
                          [Notice "Session shared! Share URL copied to clipboard."])
               end
      end
  end.

(** A profile's [sessionLog] settings. *)
Record sessionLog := mkLog {
  sl_enabled : option bool;
  sl_directory : option string;
  sl_filenameTemplate : option string;
  sl_append : option bool;
}.

(** JavaScript truthiness of an optional string and boolean. *)
Definition truthy_str (o : option string) : bool :=
  match o with Some s => negb (String.eqb s "") | None => false end.
Definition truthy_bool (o : option bool) : bool :=
  match o with Some b => b | None => false end.

(** The characters [String.prototype.trim] removes, among the code
    points 0-255 a character stands for here: TAB, LF, VT, FF, CR, SPACE
    and NO-BREAK SPACE. *)
Definition is_ws (c : Ascii.ascii) : bool :=
  match Ascii.nat_of_ascii c with
  | 9 | 10 | 11 | 12 | 13 | 32 | 160 => true
  | _ => false
  end%nat.

Fixpoint drop_ws (l : list Ascii.ascii) : list Ascii.ascii :=
  match l with
  | c :: r => if is_ws c then drop_ws r else l
  | [] => []
  end.

Definition trim (s : string) : string :=
  String.string_of_list_ascii
    (rev (drop_ws (rev (drop_ws (String.list_ascii_of_string s))))).

(** [!!storedProfile.sessionLog?.directory?.trim()]. *)
Definition hasDirectory (sl : option sessionLog) : bool :=
  match sl with
  | Some l => match sl_directory l with
              | Some d => negb (String.eqb (trim d) "")
              | None => false
              end
  | None => false
  end.

(** [sessionLog?.enabled ?? true]. *)
Definition enabled_or_true (sl : option sessionLog) : bool :=
  match sl with
  | Some l => match sl_enabled l with Some b => b | None => true end
  | None => true
  end.

Definition field {A} (f : sessionLog -> option A) (sl : option sessionLog) : option A :=
  match sl with Some l => f l | None => None end.

(** How [platform.pickDirectory()] settles. *)
Inductive pick_result := Picked (directory : option string) | PickFailed.

(** What a click on [Set log directory] does to the stored profile
    (and to [tab.profile], which gets the same value). *)
Inductive log_outcome :=
  | LogSaved (sl : option sessionLog)   (* sessionLog set, or deleted ([None]); then config.save() *)
  | LogUnchanged                         (* returned before any change *)
  | LogError.                            (* notifications.error(...) *)

Definition set_log_directory (sl : option sessionLog) (pick : pick_result) : log_outcome :=
  let enabled := enabled_or_true sl in
  let finish (n : sessionLog) :=
    if truthy_bool (sl_enabled n) || truthy_bool (sl_append n) ||
       truthy_str (sl_directory n) || truthy_str (sl_filenameTemplate n)
    then LogSaved (Some n) else LogSaved None in
  if hasDirectory sl
  then finish (mkLog (Some enabled) None (field sl_filenameTemplate sl) (field sl_append sl))
  else match pick with
       | PickFailed => LogError
       | Picked d =>
           if negb (truthy_str d) then LogUnchanged
           else finish (mkLog (Some enabled) d (field sl_filenameTemplate sl) (field sl_append sl))
       end.

(** What a click on [Use current working directory for logs] does. *)
Inductive cwd_outcome :=
  | CwdError                                    (* notifications.error(...), nothing changed *)
  | CwdSet (sl : sessionLog) (opened : option string).   (* saved; the path handed to openPath *)

(** [wd] is the value of [await tab.session?.getWorkingDirectory()]
    ([None] for undefined or null), [options_cwd] that of
    [tab.profile.options.cwd], [web] whether the platform is the web. *)
Definition use_cwd (sl : option sessionLog) (wd options_cwd : option string) (web : bool)
    : cwd_outcome :=
  let cwd := match wd with Some c => Some c | None => options_cwd end in
  match cwd with
  | Some c =>
      if String.eqb c "" then CwdError
      else CwdSet (mkLog (Some (enabled_or_true sl)) (Some c)
                         (field sl_filenameTemplate sl) (field sl_append sl))
                  (if web then None else Some c)
  | None => CwdError
  end.

End Menus.

(* ================================================================== *)
(** ** Concrete windows, for the witnesses *)
(* ================================================================== *)

Module HostScenarios.

Record win := mkWin {
  w_id : nat;
  w_main : bool;
  w_focused : bool;
  w_visible : bool;
  w_docked : bool;
  w_destroyed : bool;
}.

#[export] Instance win_api : Host.WindowApi win := {
  wid := w_id;
  isMainWindow := w_main;
  makeMain w := mkWin (w_id w) true (w_focused w) (w_visible w) (w_docked w) (w_destroyed w);
  present w := mkWin (w_id w) (w_main w) true true (w_docked w) (w_destroyed w);
  hide w := mkWin (w_id w) (w_main w) false false (w_docked w) (w_destroyed w);
  isFocused := w_focused;
  isVisible := w_visible;
  isDockedOnTop := w_docked;
  isDestroyed := w_destroyed;
  new_window n := mkWin n false false false false false;
}.

(** Three windows opened, the first (the main one) closed. *)
Definition evs3 : list Host.wevent := [Host.WOpen; Host.WOpen; Host.WOpen; Host.WClose 0].

End HostScenarios.

(* ================================================================== *)
(** ** The scenarios of the spec, as concrete states *)
(* ================================================================== *)

Module Scenarios.
Import Relay.

Definition empty_server : server := mkServer ∅ ∅ false 0 "0.0.0.0".

(** Scenario 1 of the spec: session "abc" with token "tok1". *)
Definition abc_server : server := register 0 "abc" "tok1" ReadOnly None None empty_server.

(** Scenario 2 of the spec: "int1", interactive, token "t", viewer 1. *)
Definition int1_server : server :=
  (handshake 0 1 (mkQuery (Some "int1") (Some "t") None)
     (register 0 "int1" "t" Interactive None None empty_server)).1.

(** The bytes "ls\n". *)
Definition ls_nl : string :=
  String.append "ls" (String (Ascii.Ascii false true false true false false false false) EmptyString).

Definition ro1_server : server :=
  (handshake 0 1 (mkQuery (Some "ro1") (Some "t") None)
     (register 0 "ro1" "t" ReadOnly None None empty_server)).1.

(** Scenario 4 of the spec: "multi" with three viewers. *)
Definition multi_q : query := mkQuery (Some "multi") (Some "m") None.

Definition multi_server : server :=
  let st0 := register 0 "multi" "m" ReadOnly None None empty_server in
  let st1 := (handshake 0 1 multi_q st0).1 in
  let st2 := (handshake 0 2 multi_q st1).1 in
  (handshake 0 3 multi_q st2).1.

Definition multi_session : session := mkSession "multi" "m" None ReadOnly None [1; 2; 3]%nat.

(** Viewer 2's transport is broken externally. *)
Definition multi_broken : server := break_transport 2 multi_server.

(** A machine with loopback and all-interfaces addresses, nothing bound,
    and 49152 as the port the OS hands out for port 0. *)
Definition net0 : net := mkNet [] 49152 ["0.0.0.0"; "127.0.0.1"].

(** A configuration with [sessionSharing.port: 5000]. *)
Definition cfg5000 : App.sharing_config := App.mkConfig None (Some 5000).

(** Terminal 1, with a session, shared read-only as "s1". *)
Definition demo_env : Decorator.env :=
  Decorator.mkEnv
    (fun t => if Nat.eqb t 1 then Some (Decorator.mkShared "s1" ReadOnly) else None)
    (fun _ => true).

End Scenarios.

(* ================================================================== *)
(** ** Properties of the relay *)
(* ================================================================== *)

Module RelayFacts.
Import Relay Scenarios.

Lemma mem_true c l : mem c l = true <-> In c l.
Proof.
  unfold mem. rewrite existsb_exists. split.
  - intros [x [Hx Heq]]. apply Nat.eqb_eq in Heq. subst. exact Hx.
  - intros H. exists c. split; [exact H | apply Nat.eqb_refl].
Qed.

Lemma mem_false c l : mem c l = false <-> ~ In c l.
Proof.
  rewrite <- mem_true. destruct (mem c l); split; try congruence.
Qed.

Lemma set_add_fresh c l : ~ In c l -> set_add c l = l ++ [c].
Proof. intros H. unfold set_add. apply mem_false in H. rewrite H. reflexivity. Qed.

Lemma token_ok_spec s q : token_ok s q = true <-> q_token q = Some (s_token s).
Proof.
  unfold token_ok. destruct (q_token q) as [t|]; [|split; discriminate].
  rewrite String.eqb_eq. split; [intros <-; reflexivity | intros H; injection H; auto].
Qed.

Lemma password_ok_spec s q :
  password_ok s q = true <-> s_password s = None \/ q_password q = s_password s.
Proof.
  unfold password_ok. destruct (s_password s) as [p|].
  - destruct (q_password q) as [p'|].
    + rewrite String.eqb_eq. split.
      * intros <-. right. reflexivity.
      * intros [H|H]; [discriminate | injection H; auto].
    + split; [discriminate | intros [H|H]; discriminate].
  - split; auto.
Qed.

Lemma expired_spec now s :
  expired now s = false <-> (forall e, s_expiresAt s = Some e -> now <= e).
Proof.
  unfold expired. destruct (s_expiresAt s) as [e|].
  - rewrite Z.ltb_ge. split.
    + intros H e' He'. injection He' as <-. exact H.
    + intros H. apply H. reflexivity.
  - split; [intros _ e' He'; discriminate | reflexivity].
Qed.

Lemma check_handshake_cases now q sid st :
  q_sessionId q = Some sid ->
  (accepts now q sid st /\
     exists s, sessions st !! sid = Some s /\ check_handshake now q st = Some (sid, s))
  \/ (~ accepts now q sid st /\ check_handshake now q st = None).
Proof.
  intros Hq. unfold check_handshake. rewrite Hq.
  destruct (sessions st !! sid) as [s|] eqn:Hs.
  - destruct (token_ok s q) eqn:Ht; destruct (password_ok s q) eqn:Hp;
      destruct (expired now s) eqn:He; simpl.
    all: try (right; split; [|reflexivity]; intros [s' [Hs' [Ht' [Hp' He']]]];
              rewrite Hs in Hs'; injection Hs' as <-;
              first [ apply token_ok_spec in Ht'; congruence
                    | apply password_ok_spec in Hp'; congruence
                    | apply expired_spec in He'; congruence ]).
    left. split; [|exists s; auto].
    exists s. split; [exact Hs|].
    split; [apply token_ok_spec; exact Ht|].
    split; [apply password_ok_spec; exact Hp|].
    apply expired_spec; exact He.
  - right. split; [|reflexivity]. intros [s' [Hs' _]]. congruence.
Qed.

(** C1: a fresh connection [c] attaching to [sid] ends up among the
    session's viewers exactly when the session exists, the token
    matches, a required password is supplied and correct, and the
    session has not expired. On acceptance, [c] is appended to the
    viewers and one viewer-joined notification carries the new count;
    on rejection, the registry is untouched, no notification is
    emitted and [c] is closed. *)
Theorem handshake_accepts_iff (now : Z) (c : nat) (sid : string) (q : query) (st : server)
    (Hq : q_sessionId q = Some sid) (Hfresh : ~ In c (viewers_of sid st)) :
  let '(st', evs) := handshake now c q st in
  (In c (viewers_of sid st') <-> accepts now q sid st) /\
  (accepts now q sid st ->
     viewers_of sid st' = viewers_of sid st ++ [c] /\
     evs = [ViewerJoined sid (viewerCount sid st')]) /\
  (~ accepts now q sid st ->
     sessions st' = sessions st /\ evs = [] /\ is_closed c (conns st') = true).
Proof.
  unfold handshake.
  destruct (check_handshake_cases now q sid st Hq) as [[Hacc [s [Hs Hc]]] | [Hrej Hc]];
    rewrite Hc.
  - unfold viewers_of in *. rewrite Hs in Hfresh.
    unfold viewerCount. simpl. rewrite lookup_insert_eq. simpl.
    rewrite (set_add_fresh _ _ Hfresh). rewrite Hs.
    split; [split; [intros _; exact Hacc | intros _; apply in_or_app; right; left; reflexivity]|].
    split; [intros _; split; reflexivity|].
    intros Hn. contradiction.
  - simpl. split; [|split].
    + unfold viewers_of in *. simpl. split; [intros H; contradiction | intros H; contradiction].
    + intros H; contradiction.
    + intros _. split; [reflexivity|]. split; [reflexivity|].
      unfold is_closed. simpl. rewrite lookup_insert_eq. reflexivity.
Qed.

Lemma handshake_accepts_iff_witness :
  let q := mkQuery (Some "abc") (Some "tok1") None in
  q_sessionId q = Some "abc" /\ ~ In 1%nat (viewers_of "abc" abc_server) /\
  (let '(st', evs) := handshake 5 1 q abc_server in
   (In 1%nat (viewers_of "abc" st') <-> accepts 5 q "abc" abc_server) /\
   (accepts 5 q "abc" abc_server ->
      viewers_of "abc" st' = viewers_of "abc" abc_server ++ [1%nat] /\
      evs = [ViewerJoined "abc" (viewerCount "abc" st')]) /\
   (~ accepts 5 q "abc" abc_server ->
      sessions st' = sessions abc_server /\ evs = [] /\ is_closed 1 (conns st') = true)).
Proof.
  simpl. split; [reflexivity|]. split; [vm_compute; intros []|].
  exact (handshake_accepts_iff 5 1 "abc" (mkQuery (Some "abc") (Some "tok1") None)
           abc_server eq_refl (fun H => H)).
Defined.

End RelayFacts.

(* ================================================================== *)
(** ** Input routing through relay and host *)
(* ================================================================== *)

Module InputFacts.
Import Relay Scenarios.

(** C2, as the claim states it, fails at the host: the
    [session-sharing:forward-input] IPC handler of app.ts rebroadcasts
    terminal-input for any session id, with no look at its mode, so
    bytes for the read-only session [ro1] reach every window's
    terminal-input sink through it. *)
Lemma readonly_forward_input_counterexample :
  (exists s, sessions ro1_server !! "ro1" = Some s /\ s_mode s = ReadOnly) /\
  App.forward_input [0%nat; 1%nat] "ro1" ls_nl =
    [(0%nat, App.TerminalInput "ro1" ls_nl); (1%nat, App.TerminalInput "ro1" ls_nl)].
Proof.
  split; [|reflexivity]. eexists. split; [vm_compute; reflexivity|reflexivity].
Qed.

(** C2, amended: bytes arriving on a viewer connection whose session is
    read-only are dropped by the relay: its state is unchanged and the
    [session-sharing:input] listener sends no window anything, in
    particular no terminal-input message. The [forward-input] IPC
    handler, the other way into the terminal-input sink, does no mode
    check: it rebroadcasts whatever it is given for the session. *)
Theorem readonly_input_discarded (windows : list nat) (c : nat) (data sid : string)
    (st : server) (cn : conn) (s : session)
    (Hc : conns st !! c = Some cn) (Hb : c_session cn = Some sid)
    (Hs : sessions st !! sid = Some s) (Hm : s_mode s = ReadOnly) :
  App.viewer_bytes windows c data st = (st, []) /\
  (forall d, App.forward_input windows sid d = App.broadcast windows (App.TerminalInput sid d)).
Proof.
  split; [|intros d; reflexivity].
  unfold App.viewer_bytes, viewerMessage. rewrite Hc, Hb, Hs, Hm.
  destruct (mem c (s_viewers s)); reflexivity.
Qed.

Lemma readonly_input_discarded_witness :
  exists cn s, conns ro1_server !! 1%nat = Some cn /\ c_session cn = Some "ro1" /\
    sessions ro1_server !! "ro1" = Some s /\ s_mode s = ReadOnly /\
    App.viewer_bytes [0%nat] 1 ls_nl ro1_server = (ro1_server, []) /\
    (forall d, App.forward_input [0%nat] "ro1" d = App.broadcast [0%nat] (App.TerminalInput "ro1" d)).
Proof.
  eexists. eexists. split; [vm_compute; reflexivity|]. split; [reflexivity|].
  split; [vm_compute; reflexivity|]. split; [reflexivity|].
  eapply readonly_input_discarded; [vm_compute; reflexivity | reflexivity | vm_compute; reflexivity | reflexivity].
Defined.

(** C3: bytes from an attached viewer of an interactive session reach
    every window as one terminal-input message tagged with the session
    id, and the relay state is unchanged. *)
Theorem interactive_input_forwarded (windows : list nat) (c : nat) (data sid : string)
    (st : server) (cn : conn) (s : session)
    (Hc : conns st !! c = Some cn) (Hb : c_session cn = Some sid)
    (Hs : sessions st !! sid = Some s) (Hv : In c (s_viewers s))
    (Hm : s_mode s = Interactive) :
  App.viewer_bytes windows c data st = (st, App.broadcast windows (App.TerminalInput sid data)).
Proof.
  unfold App.viewer_bytes, viewerMessage. rewrite Hc, Hb, Hs, Hm.
  apply RelayFacts.mem_true in Hv. rewrite Hv. simpl.
  unfold App.on_process_events. simpl. rewrite app_nil_r. reflexivity.
Qed.

Lemma interactive_input_forwarded_witness :
  exists cn s, conns int1_server !! 1%nat = Some cn /\ c_session cn = Some "int1" /\
    sessions int1_server !! "int1" = Some s /\ In 1%nat (s_viewers s) /\
    s_mode s = Interactive /\
    App.viewer_bytes [0%nat] 1 ls_nl int1_server = (int1_server, [(0%nat, App.TerminalInput "int1" ls_nl)]).
Proof.
  eexists. eexists. split; [vm_compute; reflexivity|]. split; [reflexivity|].
  split; [vm_compute; reflexivity|]. split; [simpl; left; reflexivity|]. split; [reflexivity|].
  change [(0%nat, App.TerminalInput "int1" ls_nl)]
    with (App.broadcast [0%nat] (App.TerminalInput "int1" ls_nl)).
  eapply interactive_input_forwarded;
    [vm_compute; reflexivity | reflexivity | vm_compute; reflexivity | simpl; left; reflexivity | reflexivity].
Defined.

End InputFacts.

(* ================================================================== *)
(** ** Broadcast: fan-out, ordering, dead viewers *)
(* ================================================================== *)

Module BroadcastFacts.
Import Relay Scenarios.

Lemma lookup_write_ne c c' d (m : gmap nat conn) : c' <> c -> write_conn c' d m !! c = m !! c.
Proof. intros H. unfold write_conn. destruct (m !! c'); [by rewrite lookup_insert_ne | done]. Qed.

Lemma lookup_close_ne c c' (m : gmap nat conn) : c' <> c -> close_conn c' m !! c = m !! c.
Proof. intros H. unfold close_conn. destruct (m !! c'); [by rewrite lookup_insert_ne | done]. Qed.

Lemma writable_write_ne c c' d m : c' <> c -> writable c (write_conn c' d m) = writable c m.
Proof. intros H. unfold writable. by rewrite lookup_write_ne. Qed.

Lemma writable_close_ne c c' m : c' <> c -> writable c (close_conn c' m) = writable c m.
Proof. intros H. unfold writable. by rewrite lookup_close_ne. Qed.

Lemma close_conn_closed c m : is_closed c (close_conn c m) = true.
Proof.
  unfold is_closed, close_conn. destruct (m !! c) eqn:E; [by rewrite lookup_insert_eq | by rewrite E].
Qed.

Lemma write_conn_written c d m cn : m !! c = Some cn -> write_conn c d m !! c = Some (written d cn).
Proof. intros E. unfold write_conn. rewrite E. by rewrite lookup_insert_eq. Qed.

Lemma filter_writable_write x rest d m :
  ~ In x rest ->
  List.filter (fun c => writable c (write_conn x d m)) rest = List.filter (fun c => writable c m) rest.
Proof.
  intros Hx. apply filter_ext_in. intros a Ha. apply writable_write_ne. intros ->. contradiction.
Qed.

Lemma filter_writable_close x rest m :
  ~ In x rest ->
  List.filter (fun c => writable c (close_conn x m)) rest = List.filter (fun c => writable c m) rest.
Proof.
  intros Hx. apply filter_ext_in. intros a Ha. apply writable_close_ne. intros ->. contradiction.
Qed.

(** One pass of [deliver] over a duplicate-free snapshot: healthy
    viewers are kept in order and receive the bytes, failing ones are
    closed, other connections are untouched, and one viewer-left
    notification is emitted per failing viewer. *)
Lemma deliver_spec sid d (vs : list nat) :
  NoDup vs -> forall kept m,
  let '(k, m', evs) := deliver sid d vs kept m in
  k = kept ++ List.filter (fun c => writable c m) vs /\
  (forall c, ~ In c vs -> m' !! c = m !! c) /\
  (forall c, In c vs -> writable c m = true ->
     exists cn, m !! c = Some cn /\ m' !! c = Some (written d cn)) /\
  (forall c, In c vs -> writable c m = false -> is_closed c m' = true) /\
  length evs = length (List.filter (fun c => negb (writable c m)) vs) /\
  Forall (fun e => exists n, e = ViewerLeft sid n) evs.
Proof.
  induction vs as [|x rest IH]; intros Hnd kept m; simpl.
  - rewrite app_nil_r. repeat split; try done.
    all: intros c [].
  - inversion Hnd as [|? ? Hx0 Hnd']; subst.
    assert (Hx : ~ In x rest) by (rewrite <- list_elem_of_In; exact Hx0).
    destruct (writable x m) eqn:Hw.
    + specialize (IH Hnd' (kept ++ [x]) (write_conn x d m)).
      destruct (deliver sid d rest (kept ++ [x]) (write_conn x d m)) as [[k m'] evs].
      destruct IH as [Hk [Hout [Hwr [Hcl [Hlen Hall]]]]].
      rewrite filter_writable_write in Hk by exact Hx.
      split; [rewrite Hk, <- app_assoc; reflexivity|].
      split; [intros c Hc; rewrite Hout by tauto; apply lookup_write_ne; intros ->; tauto|].
      split; [|split; [|split]].
      * intros c [<-|Hc] Hwc.
        -- unfold writable in Hw. destruct (m !! x) as [cn|] eqn:E; [|discriminate].
           exists cn. split; [reflexivity|]. rewrite Hout by exact Hx.
           by apply write_conn_written.
        -- assert (x <> c) by (intros ->; contradiction).
           rewrite <- (writable_write_ne c x d m) in Hwc by assumption.
           destruct (Hwr c Hc Hwc) as [cn [E1 E2]]. exists cn.
           rewrite lookup_write_ne in E1 by assumption. auto.
      * intros c [<-|Hc] Hwc; [congruence|].
        assert (x <> c) by (intros ->; contradiction).
        apply Hcl; [exact Hc|]. by rewrite writable_write_ne.
      * rewrite Hlen. cbn [List.filter].  cbn [negb].
        f_equal. apply filter_ext_in. intros a Ha.
        rewrite writable_write_ne; [reflexivity|]. intros ->; tauto.
      * exact Hall.
    + specialize (IH Hnd' kept (close_conn x m)).
      destruct (deliver sid d rest kept (close_conn x m)) as [[k m'] evs].
      destruct IH as [Hk [Hout [Hwr [Hcl [Hlen Hall]]]]].
      rewrite filter_writable_close in Hk by exact Hx.
      split; [exact Hk|].
      split; [intros c Hc; rewrite Hout by tauto; apply lookup_close_ne; intros ->; tauto|].
      split; [|split; [|split]].
      * intros c [<-|Hc] Hwc; [congruence|].
        assert (x <> c) by (intros ->; contradiction).
        rewrite <- (writable_close_ne c x m) in Hwc by assumption.
        destruct (Hwr c Hc Hwc) as [cn [E1 E2]]. exists cn.
        rewrite lookup_close_ne in E1 by assumption. auto.
      * intros c [<-|Hc] Hwc.
        -- unfold is_closed. rewrite Hout by exact Hx. apply close_conn_closed.
        -- assert (x <> c) by (intros ->; contradiction).
           apply Hcl; [exact Hc|]. by rewrite writable_close_ne.
      * cbn [List.filter negb length]. rewrite Hlen. do 2 f_equal.
        apply filter_ext_in. intros a Ha. rewrite writable_close_ne; [reflexivity|].
        intros ->; tauto.
      * constructor; [eexists; reflexivity | exact Hall].
Qed.

Lemma broadcast_spec sid d st s :
  sessions st !! sid = Some s -> NoDup (s_viewers s) ->
  let '(st', evs) := broadcastOutput sid d st in
  sessions st' = <[sid := set_viewers (List.filter (fun c => writable c (conns st)) (s_viewers s)) s]> (sessions st) /\
  (forall c, ~ In c (s_viewers s) -> conns st' !! c = conns st !! c) /\
  (forall c, In c (s_viewers s) -> writable c (conns st) = true ->
     exists cn, conns st !! c = Some cn /\ conns st' !! c = Some (written d cn)) /\
  (forall c, In c (s_viewers s) -> writable c (conns st) = false -> is_closed c (conns st') = true) /\
  length evs = length (List.filter (fun c => negb (writable c (conns st))) (s_viewers s)) /\
  Forall (fun e => exists n, e = ViewerLeft sid n) evs.
Proof.
  intros Hs Hnd. unfold broadcastOutput. rewrite Hs.
  pose proof (deliver_spec sid d (s_viewers s) Hnd [] (conns st)) as H.
  destruct (deliver sid d (s_viewers s) [] (conns st)) as [[k m'] evs].
  destruct H as [Hk [Hout [Hwr [Hcl [Hlen Hall]]]]].
  simpl in Hk. subst k. simpl. auto 10.
Qed.

Lemma written_writable d cn :
  c_open cn && negb (c_broken cn) = c_open (written d cn) && negb (c_broken (written d cn)).
Proof. reflexivity. Qed.

(** C4: one [broadcastOutput] call delivers the bytes to every viewer
    that is connected and healthy at call time; and a viewer that stays
    so receives the bytes of sequential calls in exactly the order of
    the calls, appended to what it had. *)
Theorem broadcast_fanout_ordered (sid : string) (st : server) (s : session)
    (Hs : sessions st !! sid = Some s) (Hnd : NoDup (s_viewers s)) :
  (forall d c, In c (s_viewers s) -> writable c (conns st) = true ->
     exists cn, conns st !! c = Some cn /\
       conns (broadcastOutput sid d st).1 !! c = Some (written d cn)) /\
  (forall ds c, In c (s_viewers s) -> writable c (conns st) = true ->
     exists cn, conns st !! c = Some cn /\
       conns (broadcast_seq sid ds st) !! c =
         Some (mkConn (c_session cn) (c_log cn ++ ds) (c_open cn) (c_broken cn))).
Proof.
  split.
  - intros d c Hc Hw.
    pose proof (broadcast_spec sid d st s Hs Hnd) as H.
    destruct (broadcastOutput sid d st) as [st' evs].
    destruct H as [_ [_ [Hwr _]]]. exact (Hwr c Hc Hw).
  - intros ds. revert st s Hs Hnd. induction ds as [|d ds IH]; intros st s Hs Hnd c Hc Hw.
    + unfold writable in Hw. destruct (conns st !! c) as [cn|] eqn:E; [|discriminate].
      exists cn. split; [reflexivity|]. simpl. rewrite E, app_nil_r. by destruct cn.
    + simpl.
      pose proof (broadcast_spec sid d st s Hs Hnd) as H.
      destruct (broadcastOutput sid d st) as [st' evs]. simpl.
      destruct H as [Hsess [_ [Hwr _]]].
      destruct (Hwr c Hc Hw) as [cn [E1 E2]].
      set (s' := set_viewers (List.filter (fun c => writable c (conns st)) (s_viewers s)) s).
      assert (Hs' : sessions st' !! sid = Some s') by (rewrite Hsess; apply lookup_insert_eq).
      assert (Hnd' : NoDup (s_viewers s'))
        by (apply NoDup_ListNoDup, List.NoDup_filter, NoDup_ListNoDup; exact Hnd).
      assert (Hc' : In c (s_viewers s')) by (apply filter_In; auto).
      assert (Hw' : writable c (conns st') = true).
      { unfold writable in *. rewrite E2. rewrite E1 in Hw. exact Hw. }
      destruct (IH st' s' Hs' Hnd' c Hc' Hw') as [cn' [E3 E4]].
      rewrite E2 in E3. injection E3 as <-.
      exists cn. split; [exact E1|]. rewrite E4. simpl. rewrite <- app_assoc. reflexivity.
Qed.

(** C5: a viewer whose write fails is closed and dropped from the
    viewers while every healthy viewer still receives the bytes; the
    viewer count afterwards is the number of healthy viewers, hence
    smaller than before, and the loss is announced by a viewer-left
    notification. The broadcast always returns a server state: no
    failure escapes it. *)
Theorem dead_viewer_isolated (sid d : string) (st : server) (s : session) (c0 : nat)
    (Hs : sessions st !! sid = Some s) (Hnd : NoDup (s_viewers s))
    (Hin : In c0 (s_viewers s)) (Hdead : writable c0 (conns st) = false) :
  let '(st', evs) := broadcastOutput sid d st in
  ~ In c0 (viewers_of sid st') /\ is_closed c0 (conns st') = true /\
  (forall c, In c (s_viewers s) -> writable c (conns st) = true ->
     exists cn, conns st !! c = Some cn /\ conns st' !! c = Some (written d cn)) /\
  viewerCount sid st' = length (List.filter (fun c => writable c (conns st)) (s_viewers s)) /\
  (viewerCount sid st' < length (s_viewers s))%nat /\
  exists n, In (ViewerLeft sid n) evs.
Proof.
  pose proof (broadcast_spec sid d st s Hs Hnd) as H.
  destruct (broadcastOutput sid d st) as [st' evs].
  destruct H as [Hsess [_ [Hwr [Hcl [Hlen Hall]]]]].
  unfold viewers_of, viewerCount. rewrite Hsess, lookup_insert_eq. simpl.
  split; [rewrite filter_In; intros [_ Hw]; congruence|].
  split; [exact (Hcl c0 Hin Hdead)|].
  split; [exact Hwr|].
  split; [reflexivity|].
  split.
  - pose proof (filter_length (fun c => writable c (conns st)) (s_viewers s)) as Hl.
    assert (Hpos : (0 < length (List.filter (fun c => negb (writable c (conns st))) (s_viewers s)))%nat).
    { destruct (List.filter (fun c => negb (writable c (conns st))) (s_viewers s)) eqn:E.
      - exfalso. assert (In c0 (List.filter (fun c => negb (writable c (conns st))) (s_viewers s)))
          by (apply filter_In; rewrite Hdead; auto).
        rewrite E in H. contradiction.
      - simpl. lia. }
    lia.
  - destruct evs as [|e evs'].
    + exfalso. simpl in Hlen.
      assert (In c0 (List.filter (fun c => negb (writable c (conns st))) (s_viewers s)))
        by (apply filter_In; rewrite Hdead; auto).
      destruct (List.filter (fun c => negb (writable c (conns st))) (s_viewers s)); [contradiction | discriminate].
    + inversion Hall as [|? ? [n ->] _]. exists n. left. reflexivity.
Qed.

Lemma multi_lookup : sessions multi_server !! "multi" = Some multi_session.
Proof. vm_compute. reflexivity. Qed.

Lemma multi_broken_lookup : sessions multi_broken !! "multi" = Some multi_session.
Proof. vm_compute. reflexivity. Qed.

Lemma multi_nodup : NoDup (s_viewers multi_session).
Proof. apply (bool_decide_unpack _). vm_compute. reflexivity. Qed.

Lemma broadcast_fanout_ordered_witness :
  sessions multi_server !! "multi" = Some multi_session /\ NoDup (s_viewers multi_session) /\
  (forall d c, In c (s_viewers multi_session) -> writable c (conns multi_server) = true ->
     exists cn, conns multi_server !! c = Some cn /\
       conns (broadcastOutput "multi" d multi_server).1 !! c = Some (written d cn)) /\
  (forall ds c, In c (s_viewers multi_session) -> writable c (conns multi_server) = true ->
     exists cn, conns multi_server !! c = Some cn /\
       conns (broadcast_seq "multi" ds multi_server) !! c =
         Some (mkConn (c_session cn) (c_log cn ++ ds) (c_open cn) (c_broken cn))).
Proof.
  split; [exact multi_lookup|]. split; [exact multi_nodup|].
  apply broadcast_fanout_ordered; [exact multi_lookup | exact multi_nodup].
Defined.

Lemma dead_viewer_isolated_witness :
  sessions multi_broken !! "multi" = Some multi_session /\ NoDup (s_viewers multi_session) /\
  In 2%nat (s_viewers multi_session) /\ writable 2 (conns multi_broken) = false /\
  (let '(st', evs) := broadcastOutput "multi" "hello" multi_broken in
   ~ In 2%nat (viewers_of "multi" st') /\ is_closed 2 (conns st') = true /\
   (forall c, In c (s_viewers multi_session) -> writable c (conns multi_broken) = true ->
      exists cn, conns multi_broken !! c = Some cn /\ conns st' !! c = Some (written "hello" cn)) /\
   viewerCount "multi" st' =
     length (List.filter (fun c => writable c (conns multi_broken)) (s_viewers multi_session)) /\
   (viewerCount "multi" st' < length (s_viewers multi_session))%nat /\
   exists n, In (ViewerLeft "multi" n) evs).
Proof.
  split; [exact multi_broken_lookup|]. split; [exact multi_nodup|].
  split; [simpl; tauto|]. split; [vm_compute; reflexivity|].
  apply dead_viewer_isolated;
    [exact multi_broken_lookup | exact multi_nodup | simpl; tauto | vm_compute; reflexivity].
Defined.

(** Scenario 4: the two remaining viewers receive "hello", the count
    drops to 2. *)
Example multi_scenario :
  let st' := (broadcastOutput "multi" "hello" multi_broken).1 in
  viewerCount "multi" st' = 2%nat /\
  option_map c_log (conns st' !! 1%nat) = Some ["hello"%string] /\
  option_map c_log (conns st' !! 3%nat) = Some ["hello"%string].
Proof. vm_compute. repeat split. Qed.

End BroadcastFacts.

(* ================================================================== *)
(** ** Expiration *)
(* ================================================================== *)

Module ExpiryFacts.
Import Relay Scenarios.

Lemma unregister_sessions k st : sessions (unregister k st).1 = delete k (sessions st).
Proof.
  unfold unregister. destruct (sessions st !! k) eqn:E.
  - destruct (drop_viewers k (s_viewers s) (conns st)). reflexivity.
  - simpl. symmetry. by apply delete_id.
Qed.

Lemma close_conn_pres c c' m : is_closed c m = true -> is_closed c (close_conn c' m) = true.
Proof.
  intros H. destruct (decide (c' = c)) as [->|Hne].
  - apply BroadcastFacts.close_conn_closed.
  - unfold is_closed in *. by rewrite BroadcastFacts.lookup_close_ne.
Qed.

Lemma drop_viewers_spec sid vs m :
  let '(m', _) := drop_viewers sid vs m in
  (forall c, In c vs -> is_closed c m' = true) /\
  (forall c, is_closed c m = true -> is_closed c m' = true).
Proof.
  revert m. induction vs as [|x rest IH]; intros m; simpl.
  - split; [intros c []| auto].
  - specialize (IH (close_conn x m)).
    destruct (drop_viewers sid rest (close_conn x m)) as [m' evs].
    destruct IH as [Hin Hpres]. split.
    + intros c [<-|Hc]; [apply Hpres, BroadcastFacts.close_conn_closed | auto].
    + intros c Hc. apply Hpres, close_conn_pres, Hc.
Qed.

Lemma unregister_closed_pres k st c :
  is_closed c (conns st) = true -> is_closed c (conns (unregister k st).1) = true.
Proof.
  unfold unregister. destruct (sessions st !! k) as [s|]; [|auto].
  pose proof (drop_viewers_spec k (s_viewers s) (conns st)) as H.
  destruct (drop_viewers k (s_viewers s) (conns st)). simpl. apply H.
Qed.

Lemma unregister_closes k st s c :
  sessions st !! k = Some s -> In c (s_viewers s) -> is_closed c (conns (unregister k st).1) = true.
Proof.
  intros Hs Hc. unfold unregister. rewrite Hs.
  pose proof (drop_viewers_spec k (s_viewers s) (conns st)) as H.
  destruct (drop_viewers k (s_viewers s) (conns st)). simpl. apply (proj1 H), Hc.
Qed.

Lemma unregister_step_fst acc y : (unregister_step acc y).1 = (unregister y acc.1).1.
Proof. unfold unregister_step. by destruct (unregister y acc.1). Qed.

Lemma fold_unregister_none ids acc x :
  In x ids \/ sessions acc.1 !! x = None ->
  sessions (fold_left unregister_step ids acc).1 !! x = None.
Proof.
  revert acc. induction ids as [|y rest IH]; intros acc H; simpl.
  - destruct H as [[]|H]; exact H.
  - apply IH. rewrite unregister_step_fst, unregister_sessions.
    destruct H as [[->|H]|H].
    + right. apply lookup_delete_eq.
    + left. exact H.
    + right. rewrite lookup_delete_None. auto.
Qed.

Lemma fold_unregister_closed_pres ids acc c :
  is_closed c (conns acc.1) = true -> is_closed c (conns (fold_left unregister_step ids acc).1) = true.
Proof.
  revert acc. induction ids as [|y rest IH]; intros acc H; simpl; [exact H|].
  apply IH. rewrite unregister_step_fst. apply unregister_closed_pres, H.
Qed.

Lemma fold_unregister_closes ids acc x s c :
  In x ids -> sessions acc.1 !! x = Some s -> In c (s_viewers s) ->
  is_closed c (conns (fold_left unregister_step ids acc).1) = true.
Proof.
  revert acc. induction ids as [|y rest IH]; intros acc Hx Hs Hc; simpl; [destruct Hx|].
  destruct (decide (y = x)) as [->|Hne].
  - apply fold_unregister_closed_pres. rewrite unregister_step_fst.
    exact (unregister_closes x acc.1 s c Hs Hc).
  - destruct Hx as [->|Hx]; [congruence|].
    apply IH; [exact Hx| |exact Hc].
    rewrite unregister_step_fst, unregister_sessions, lookup_delete_ne; auto.
Qed.

Lemma fold_unregister_sub ids acc x s :
  sessions (fold_left unregister_step ids acc).1 !! x = Some s -> sessions acc.1 !! x = Some s.
Proof.
  revert acc. induction ids as [|y rest IH]; intros acc H; simpl in *; [exact H|].
  apply IH in H. rewrite unregister_step_fst, unregister_sessions in H.
  apply lookup_delete_Some in H. apply H.
Qed.

Lemma expired_ids_spec now m x :
  In x (expired_ids now m) <-> exists s, m !! x = Some s /\ expired now s = true.
Proof.
  unfold expired_ids. rewrite in_map_iff. split.
  - intros [[k s] [<- Hin]]. apply list_elem_of_In, elem_of_map_to_list in Hin.
    apply map_lookup_filter_Some in Hin. simpl in Hin. exists s. exact Hin.
  - intros [s Hs]. exists (x, s). split; [reflexivity|].
    apply list_elem_of_In, elem_of_map_to_list, map_lookup_filter_Some. exact Hs.
Qed.

Lemma check_handshake_some now q st sid s :
  check_handshake now q st = Some (sid, s) -> sessions st !! sid = Some s.
Proof.
  unfold check_handshake. destruct (q_sessionId q) as [sid'|]; [|discriminate].
  destruct (sessions st !! sid') as [s'|] eqn:E; [|discriminate].
  destruct (token_ok s' q && password_ok s' q && negb (expired now s')); [|discriminate].
  intros H. injection H as <- <-. exact E.
Qed.

Lemma viewerMessage_state c d st : (viewerMessage c d st).1 = st.
Proof.
  unfold viewerMessage.
  destruct (conns st !! c) as [cn|]; [|reflexivity].
  destruct (c_session cn) as [sid|]; [|reflexivity].
  destruct (sessions st !! sid) as [s|]; [|reflexivity].
  destruct (mem c (s_viewers s)); [|reflexivity].
  destruct (s_mode s); reflexivity.
Qed.

(** The registry entry of [sid], if any, expires at [e]. *)
Definition exp_at (sid : string) (e : Z) (st : server) : Prop :=
  forall s, sessions st !! sid = Some s -> s_expiresAt s = Some e.

Lemma exec_op_exp now o st sid e :
  registers sid o = false -> exp_at sid e st -> exp_at sid e (exec_op now o st).1.
Proof.
  intros Hr Hinv. destruct o as [sid' tok md pw ex|k|c q|k d|c d|c|]; simpl.
  - simpl in Hr. apply String.eqb_neq in Hr.
    intros s. unfold register. simpl. rewrite lookup_insert_ne by congruence. apply Hinv.
  - intros s. rewrite unregister_sessions. intros H. apply lookup_delete_Some in H. apply Hinv, H.
  - unfold handshake. destruct (check_handshake now q st) as [[sid' s']|] eqn:E.
    + apply check_handshake_some in E. intros s. simpl.
      destruct (decide (sid' = sid)) as [->|Hne].
      * rewrite lookup_insert_eq. intros H. injection H as <-. simpl. apply Hinv, E.
      * rewrite lookup_insert_ne by exact Hne. apply Hinv.
    + exact Hinv.
  - unfold broadcastOutput. destruct (sessions st !! k) as [s'|] eqn:E; [|exact Hinv].
    destruct (deliver k d (s_viewers s') [] (conns st)) as [[kept m'] evs].
    intros s. simpl. destruct (decide (k = sid)) as [->|Hne].
    + rewrite lookup_insert_eq. intros H. injection H as <-. simpl. apply Hinv, E.
    + rewrite lookup_insert_ne by exact Hne. apply Hinv.
  - rewrite viewerMessage_state. exact Hinv.
  - unfold break_transport. destruct (conns st !! c); exact Hinv.
  - intros s H. apply fold_unregister_sub in H. apply Hinv, H.
Qed.

Lemma run_ops_exp ops st sid e :
  forallb (fun o => negb (registers sid o.2)) ops = true ->
  exp_at sid e st -> exp_at sid e (run_ops ops st).1.
Proof.
  revert st. induction ops as [|[t o] rest IH]; intros st Hops Hinv; simpl; [exact Hinv|].
  simpl in Hops. apply andb_prop in Hops as [Ho Hrest]. apply negb_true_iff in Ho.
  pose proof (exec_op_exp t o st sid e Ho Hinv) as H1.
  destruct (exec_op t o st) as [st1 e1]. specialize (IH st1 Hrest H1).
  destruct (run_ops rest st1) as [st2 e2]. exact IH.
Qed.

Lemma expired_ids_only now (m : gmap string session) sid :
  (forall k s, m !! k = Some s -> expired now s = true -> k = sid) ->
  expired_ids now m =
    match m !! sid with Some s => if expired now s then [sid] else [] | None => [] end.
Proof.
  intros Honly. unfold expired_ids.
  assert (Hf : filter (fun kv => expired now kv.2 = true) m =
    match m !! sid with Some s => if expired now s then {[sid := s]} else ∅ | None => ∅ end).
  { apply map_eq. intros k.
    destruct (filter (fun kv => expired now kv.2 = true) m !! k) as [v|] eqn:F.
    - apply map_lookup_filter_Some in F as [Hk HP]. simpl in HP.
      pose proof (Honly k v Hk HP) as ->. rewrite Hk, HP. by rewrite lookup_singleton_eq.
    - apply map_lookup_filter_None in F.
      destruct (m !! sid) as [s|] eqn:E; [|by rewrite lookup_empty].
      destruct (expired now s) eqn:Ee; [|by rewrite lookup_empty].
      destruct (decide (k = sid)) as [->|Hne].
      + exfalso. destruct F as [F|F]; [congruence|]. apply (F s E). exact Ee.
      + by rewrite lookup_singleton_ne by congruence. }
  rewrite Hf. destruct (m !! sid) as [s|]; [destruct (expired now s)|].
  - by rewrite map_to_list_singleton.
  - by rewrite map_to_list_empty.
  - by rewrite map_to_list_empty.
Qed.

(** C6: a session registered at [t0] with [expiresInSeconds = N] and
    not re-registered since is, at any check after [t0 + N] seconds:
    absent from lookup; refused to any attach (the registry untouched
    and nothing emitted); gone after the expiration sweep, with every
    viewer it had disconnected; and when it is the only expired
    session, the sweep is exactly [unregister] of it, notifications
    included. *)
Theorem expiration_unregisters (t0 N now : Z) (sid tok : string) (md : mode)
    (pw : option string) (st : server) (ops : list (Z * op))
    (Hops : forallb (fun o => negb (registers sid o.2)) ops = true)
    (Hlate : t0 + N * 1000 < now) :
  let st1 := (run_ops ops (register t0 sid tok md pw (Some N) st)).1 in
  lookup now sid st1 = None /\
  (forall c q, q_sessionId q = Some sid ->
     sessions (handshake now c q st1).1 = sessions st1 /\ (handshake now c q st1).2 = []) /\
  sessions (sweepExpired now st1).1 !! sid = None /\
  (forall s c, sessions st1 !! sid = Some s -> In c (s_viewers s) ->
     is_closed c (conns (sweepExpired now st1).1) = true) /\
  ((forall k s, sessions st1 !! k = Some s -> expired now s = true -> k = sid) ->
     sweepExpired now st1 = unregister sid st1).
Proof.
  intros st1.
  assert (Hinv : exp_at sid (t0 + N * 1000) st1).
  { apply run_ops_exp; [exact Hops|].
    intros s. unfold register. simpl. rewrite lookup_insert_eq. intros H. injection H as <-.
    reflexivity. }
  assert (Hexp : forall s, sessions st1 !! sid = Some s -> expired now s = true).
  { intros s Hs. unfold expired. rewrite (Hinv s Hs). apply Z.ltb_lt. exact Hlate. }
  split; [|split; [|split; [|split]]].
  - unfold lookup. destruct (sessions st1 !! sid) as [s|] eqn:E; [|reflexivity].
    by rewrite (Hexp s eq_refl).
  - intros c q Hq.
    assert (Hc : check_handshake now q st1 = None).
    { unfold check_handshake. rewrite Hq.
      destruct (sessions st1 !! sid) as [s|] eqn:E; [|reflexivity].
      rewrite (Hexp s eq_refl). by rewrite andb_false_r. }
    unfold handshake. rewrite Hc. split; reflexivity.
  - unfold sweepExpired, unregister_all.
    apply fold_unregister_none.
    destruct (sessions st1 !! sid) as [s|] eqn:E; [left | right; exact E].
    apply expired_ids_spec. exists s. split; [exact E | apply Hexp; reflexivity].
  - intros s c Hs Hc. unfold sweepExpired, unregister_all.
    apply (fold_unregister_closes _ _ sid s c); [|exact Hs|exact Hc].
    apply expired_ids_spec. exists s. split; [exact Hs | apply Hexp, Hs].
  - intros Honly. unfold sweepExpired, unregister_all.
    rewrite (expired_ids_only now (sessions st1) sid Honly).
    destruct (sessions st1 !! sid) as [s|] eqn:E.
    + rewrite (Hexp s eq_refl). simpl. unfold unregister_step. simpl.
      destruct (unregister sid st1). reflexivity.
    + simpl. unfold unregister. rewrite E. reflexivity.
Qed.

(** Scenario 3: "exp1" with [expiresInSeconds = 1], one viewer. *)
Definition exp1_ops : list (Z * op) :=
  [(0, OpConnect 1 (mkQuery (Some "exp1") (Some "t") None))].

Lemma expiration_unregisters_witness :
  forallb (fun o => negb (registers "exp1" o.2)) exp1_ops = true /\ 0 + 1 * 1000 < 1500 /\
  (let st1 := (run_ops exp1_ops (register 0 "exp1" "t" ReadOnly None (Some 1) empty_server)).1 in
   lookup 1500 "exp1" st1 = None /\
   (forall c q, q_sessionId q = Some "exp1" ->
      sessions (handshake 1500 c q st1).1 = sessions st1 /\ (handshake 1500 c q st1).2 = []) /\
   sessions (sweepExpired 1500 st1).1 !! "exp1" = None /\
   (forall s c, sessions st1 !! "exp1" = Some s -> In c (s_viewers s) ->
      is_closed c (conns (sweepExpired 1500 st1).1) = true) /\
   ((forall k s, sessions st1 !! k = Some s -> expired 1500 s = true -> k = "exp1") ->
      sweepExpired 1500 st1 = unregister "exp1" st1)).
Proof.
  split; [reflexivity|]. split; [lia|].
  apply (expiration_unregisters 0 1 1500 "exp1" "t" ReadOnly None empty_server exp1_ops);
    [reflexivity | lia].
Defined.

(** Scenario 3 end to end: the attach is accepted at once, refused at
    1.5 s, and the sweep leaves no active session. *)
Example exp1_scenario :
  let st0 := register 0 "exp1" "t" ReadOnly None (Some 1) empty_server in
  let q := mkQuery (Some "exp1") (Some "t") None in
  let st1 := (handshake 0 1 q st0).1 in
  viewerCount "exp1" st1 = 1%nat /\
  viewerCount "exp1" (handshake 1500 2 q st1).1 = 1%nat /\
  size (sessions (sweepExpired 1500 st1).1) = 0%nat /\
  is_closed 1 (conns (sweepExpired 1500 st1).1) = true.
Proof. vm_compute. repeat split. Qed.

End ExpiryFacts.

(* ================================================================== *)
(** ** Server lifecycle and unknown sessions *)
(* ================================================================== *)

Module LifecycleFacts.
Import Relay Scenarios.

Lemma bind_error_None p h nt :
  bind_error p h nt = None <->
  In h (hosts nt) /\ 0 <= p <= 65535 /\ ~ In (if p =? 0 then ephemeral nt else p) (in_use nt).
Proof.
  unfold bind_error.
  destruct (existsb (String.eqb h) (hosts nt)) eqn:Hh; simpl.
  - assert (Hh' : In h (hosts nt)).
    { apply existsb_exists in Hh as [x [Hx Heq]]. apply String.eqb_eq in Heq. subst. exact Hx. }
    destruct ((p <? 0) || (65535 <? p)) eqn:Hp.
    + split; [discriminate|]. intros [_ [Hr _]].
      apply orb_true_iff in Hp as [Hp|Hp]; apply Z.ltb_lt in Hp; lia.
    + apply orb_false_iff in Hp as [Hp1 Hp2]. apply Z.ltb_ge in Hp1, Hp2.
      destruct (existsb (Z.eqb (if p =? 0 then ephemeral nt else p)) (in_use nt)) eqn:Hu.
      * split; [discriminate|]. intros [_ [_ Hn]]. exfalso. apply Hn.
        apply existsb_exists in Hu as [x [Hx Heq]]. apply Z.eqb_eq in Heq. rewrite Heq. exact Hx.
      * split; [intros _|reflexivity]. split; [exact Hh'|]. split; [lia|].
        intros Hin. assert (existsb (Z.eqb (if p =? 0 then ephemeral nt else p)) (in_use nt) = true)
          by (apply existsb_exists; exists (if p =? 0 then ephemeral nt else p); split; [exact Hin | apply Z.eqb_refl]).
        congruence.
  - split; [discriminate|]. intros [Hin _].
    assert (existsb (String.eqb h) (hosts nt) = true)
      by (apply existsb_exists; exists h; split; [exact Hin | apply String.eqb_refl]).
    congruence.
Qed.

(** C7, as the claim states it, fails: with [sessionSharing.port: 5000]
    configured, [start-server] called with port 0 binds and returns
    5000, not the port the OS would pick for 0. *)
Lemma start_zero_uses_config_port :
  let '(st', nt', reply, _) :=
    App.start_server [0%nat] cfg5000 (Some 0) (Some "127.0.0.1") empty_server net0 in
  reply = App.StartOk 5000 "127.0.0.1" /\ reply <> App.StartOk (ephemeral net0) "127.0.0.1" /\
  port st' = 5000 /\ In 5000 (in_use nt').
Proof. vm_compute. split; [reflexivity|]. split; [discriminate|]. split; [reflexivity|]. left; reflexivity. Qed.

(** C7, amended: from Stopped, [start-server] binds [port || config.port
    || 0] on [host || config.bindHost || "0.0.0.0"]. When that address
    is available it replies [{success: true, port, host}] with the port
    actually bound, which for a resolved port of 0 is the OS's pick
    (positive when the OS hands out a positive port); when the host is
    not an address of the machine, the port is out of range or already
    in use, it replies [{success: false, error}] and the server and the
    OS bindings are unchanged, so the server stays Stopped. *)
Theorem start_server_contract (windows : list nat) (cfg : App.sharing_config)
    (p : option Z) (h : option string) (st : server) (nt : net)
    (Hstopped : running st = false) :
  let bindHost := App.or_str h (App.or_str (App.cfg_bindHost cfg) "0.0.0.0") in
  let bindPort := App.or_num p (App.or_num (App.cfg_port cfg) 0) in
  let bp := if bindPort =? 0 then ephemeral nt else bindPort in
  let '(st', nt', reply, _) := App.start_server windows cfg p h st nt in
  (In bindHost (hosts nt) /\ 0 <= bindPort <= 65535 /\ ~ In bp (in_use nt) ->
     reply = App.StartOk bp bindHost /\ running st' = true /\ port st' = bp /\
     In bp (in_use nt') /\ (0 < ephemeral nt -> 0 < bp)) /\
  (~ In bindHost (hosts nt) \/ ~ (0 <= bindPort <= 65535) \/ In bp (in_use nt) ->
     exists e, reply = App.StartFailed e /\ st' = st /\ nt' = nt /\ running st' = false).
Proof.
  intros bindHost bindPort bp.
  unfold App.start_server. fold bindHost bindPort.
  unfold start. rewrite Hstopped.
  destruct (bind_error bindPort bindHost nt) as [e|] eqn:Hb.
  - split.
    + intros Hok. apply bind_error_None in Hok. congruence.
    + intros _. exists e. auto.
  - pose proof (proj1 (bind_error_None _ _ _) Hb) as [Hh [Hr Hn]].
    split.
    + intros _. fold bp. split; [reflexivity|]. split; [reflexivity|]. split; [reflexivity|].
      split; [left; reflexivity|].
      intros He. unfold bp. destruct (bindPort =? 0) eqn:Hz; [exact He|].
      apply Z.eqb_neq in Hz. lia.
    + intros [H|[H|H]]; exfalso; [exact (H Hh) | exact (H Hr) | exact (Hn H)].
Qed.

Lemma start_server_contract_witness :
  running empty_server = false /\
  (let bindHost := App.or_str None (App.or_str (App.cfg_bindHost (App.mkConfig None None)) "0.0.0.0") in
   let bindPort := App.or_num (Some 0) (App.or_num (App.cfg_port (App.mkConfig None None)) 0) in
   let bp := if bindPort =? 0 then ephemeral net0 else bindPort in
   let '(st', nt', reply, _) :=
     App.start_server [0%nat] (App.mkConfig None None) (Some 0) None empty_server net0 in
   (In bindHost (hosts net0) /\ 0 <= bindPort <= 65535 /\ ~ In bp (in_use net0) ->
      reply = App.StartOk bp bindHost /\ running st' = true /\ port st' = bp /\
      In bp (in_use nt') /\ (0 < ephemeral net0 -> 0 < bp)) /\
   (~ In bindHost (hosts net0) \/ ~ (0 <= bindPort <= 65535) \/ In bp (in_use net0) ->
      exists e, reply = App.StartFailed e /\ st' = empty_server /\ nt' = net0 /\
        running st' = false)).
Proof.
  split; [reflexivity|].
  exact (start_server_contract [0%nat] (App.mkConfig None None) (Some 0) None empty_server net0 eq_refl).
Defined.

(** C8: [start] while Running changes nothing (no second bind) and
    returns the existing port; [stop] while Stopped changes nothing; so
    a second [start] after a successful one returns the first one's port. *)
Theorem start_stop_idempotent :
  (forall p h st nt, running st = true -> start p h st nt = (st, nt, inl (port st))) /\
  (forall st nt, running st = false -> stop st nt = (st, nt)) /\
  (forall p h p' h' st nt st1 nt1 q,
     start p h st nt = (st1, nt1, inl q) -> start p' h' st1 nt1 = (st1, nt1, inl q)).
Proof.
  split; [|split].
  - intros p h st nt H. unfold start. rewrite H. reflexivity.
  - intros st nt H. unfold stop. rewrite H. reflexivity.
  - intros p h p' h' st nt st1 nt1 q H. unfold start in H.
    destruct (running st) eqn:Hr.
    + injection H as <- <- <-. unfold start. rewrite Hr. reflexivity.
    + destruct (bind_error p h nt); [discriminate|].
      injection H as <- <- <-. reflexivity.
Qed.

(** Scenario 5: [start(0, "127.0.0.1")] twice in a row. *)
Lemma start_stop_idempotent_witness :
  let '(st1, nt1, r1) := start 0 "127.0.0.1" empty_server net0 in
  start 0 "127.0.0.1" st1 nt1 = (st1, nt1, r1) /\ running st1 = true /\ r1 = inl 49152 /\
  stop empty_server net0 = (empty_server, net0).
Proof.
  destruct start_stop_idempotent as [_ [Hstop Hagain]].
  simpl. split; [apply (Hagain 0 "127.0.0.1"%string _ _ empty_server net0); reflexivity|].
  split; [reflexivity|]. split; [reflexivity|]. apply Hstop. reflexivity.
Defined.

(** C9: on an id absent from the registry, [unregister] (also a second
    time), [broadcastOutput] and [viewerCount] are no-ops: nothing
    changes, nothing is emitted, the count is 0; and a second
    [unregister] of any id, present before or not, is a no-op too. *)
Theorem unknown_session_benign (sid : string) (st : server)
    (Hnone : sessions st !! sid = None) :
  unregister sid st = (st, []) /\
  (forall d, broadcastOutput sid d st = (st, [])) /\
  viewerCount sid st = 0%nat /\
  (forall st0, unregister sid (unregister sid st0).1 = ((unregister sid st0).1, [])).
Proof.
  split; [unfold unregister; rewrite Hnone; reflexivity|].
  split; [intros d; unfold broadcastOutput; rewrite Hnone; reflexivity|].
  split; [unfold viewerCount; rewrite Hnone; reflexivity|].
  intros st0. unfold unregister at 1.
  rewrite ExpiryFacts.unregister_sessions, lookup_delete_eq. reflexivity.
Qed.

Lemma unknown_session_benign_witness :
  sessions abc_server !! "nope" = None /\
  unregister "nope" abc_server = (abc_server, []) /\
  (forall d, broadcastOutput "nope" d abc_server = (abc_server, [])) /\
  viewerCount "nope" abc_server = 0%nat /\
  (forall st0, unregister "nope" (unregister "nope" st0).1 = ((unregister "nope" st0).1, [])).
Proof.
  split; [vm_compute; reflexivity|].
  apply unknown_session_benign. vm_compute. reflexivity.
Defined.

End LifecycleFacts.

(* ================================================================== *)
(** ** The decorator: closing a shared terminal's session *)
(* ================================================================== *)

Module DecoratorFacts.
Import Decorator Scenarios.

(** The subscriptions held for terminal [t]. *)
Definition subs_of (t : nat) (st : dstate) : list (nat * sub) :=
  List.filter (fun ts => Nat.eqb ts.1 t) (subscriptions st).

(** A terminal in [sharedTerminals] holds exactly the three
    subscriptions of [attachToSharedSession]; any other holds none. *)
Definition dinv (st : dstate) : Prop :=
  forall t, subs_of t st =
    match sharedTerminals st !! t with
    | Some sid => [(t, OnOutput sid); (t, OnClosed); (t, OnDestroyed)]
    | None => []
    end.

Lemma react_subs_of t k st :
  react t k st = omap (fun ts => k ts.2) (subs_of t st).
Proof.
  unfold react, subs_of. induction (subscriptions st) as [|[a x] l IH]; [reflexivity|].
  cbn. destruct (Nat.eqb a t); cbn; [destruct (k x); cbn; [f_equal|]|]; exact IH.
Qed.

Lemma dinv_init : dinv init.
Proof. intros t. reflexivity. Qed.

Lemma dinv_attach e t st : dinv st -> dinv (attach e t st).
Proof.
  intros Hinv. unfold attach. destruct (isSessionShared e t); [|exact Hinv].
  unfold attachToSharedSession. destruct (getSharedSession e t) as [ss|]; [|exact Hinv].
  destruct (negb (has_session e t)); [exact Hinv|].
  destruct (sharedTerminals st !! t) as [sid0|] eqn:E; [exact Hinv|].
  intros t'. unfold subs_of, subscribeUntilDetached. simpl.
  rewrite !List.filter_app. fold (subs_of t' st). rewrite Hinv.
  destruct (decide (t = t')) as [->|Hne].
  - rewrite E, lookup_insert_eq. simpl. rewrite Nat.eqb_refl. reflexivity.
  - rewrite lookup_insert_ne by exact Hne. simpl.
    assert (Hf : Nat.eqb t t' = false) by (apply Nat.eqb_neq; exact Hne).
    rewrite Hf. simpl. rewrite !app_nil_r. reflexivity.
Qed.

Lemma filter_removed (t : nat) (l : list (nat * sub)) :
  List.filter (fun ts => Nat.eqb ts.1 t) (List.filter (fun ts => negb (Nat.eqb ts.1 t)) l) = [].
Proof.
  induction l as [|[a x] l IH]; [reflexivity|].
  cbn. destruct (Nat.eqb a t) eqn:Ha; cbn; [exact IH|]. rewrite Ha. exact IH.
Qed.

Lemma filter_kept (t t' : nat) (l : list (nat * sub)) : t <> t' ->
  List.filter (fun ts => Nat.eqb ts.1 t') (List.filter (fun ts => negb (Nat.eqb ts.1 t)) l) =
  List.filter (fun ts => Nat.eqb ts.1 t') l.
Proof.
  intros Hne. induction l as [|[a x] l IH]; [reflexivity|].
  cbn. destruct (Nat.eqb a t) eqn:Ha; cbn.
  - apply Nat.eqb_eq in Ha. subst a.
    assert (Hf : Nat.eqb t t' = false) by (apply Nat.eqb_neq; exact Hne).
    rewrite Hf. exact IH.
  - destruct (Nat.eqb a t'); [f_equal|]; exact IH.
Qed.

Lemma dinv_detach t st : dinv st -> dinv (detach t st).
Proof.
  intros Hinv t'. unfold detach, base_detach, subs_of. simpl.
  assert (Hsh : sharedTerminals (detachFromSharedSession t st) = delete t (sharedTerminals st)).
  { unfold detachFromSharedSession. destruct (sharedTerminals st !! t) eqn:E; [reflexivity|].
    symmetry. by apply delete_id. }
  assert (Hsub : subscriptions (detachFromSharedSession t st) = subscriptions st).
  { unfold detachFromSharedSession. by destruct (sharedTerminals st !! t). }
  rewrite Hsh, Hsub.
  destruct (decide (t = t')) as [->|Hne].
  - rewrite lookup_delete_eq. apply filter_removed.
  - rewrite lookup_delete_ne by exact Hne. rewrite filter_kept by exact Hne.
    fold (subs_of t' st). apply Hinv.
Qed.

Lemma dinv_step e ev st : dinv st -> dinv (step e ev st).1.
Proof.
  intros H. destruct ev; simpl; [apply dinv_attach | apply dinv_detach | | |]; exact H.
Qed.

Lemma dinv_run e evs st : dinv st -> dinv (run e evs st).1.
Proof.
  revert st. induction evs as [|ev rest IH]; intros st H; simpl; [exact H|].
  pose proof (dinv_step e ev st H) as H1.
  destruct (step e ev st) as [st1 c1]. specialize (IH st1 H1).
  destruct (run e rest st1) as [st2 c2]. exact IH.
Qed.

(** C10, as the claim states it, fails: once the decorator is detached
    from an attached terminal, its session's closing no longer invokes
    [stopSharing]; and output the session emits after closing is still
    handed to [broadcastOutput] under the old session id. *)
Lemma close_after_detach_counterexample :
  (run demo_env [Attach 1; Detach 1; Closed 1] init).2 = [] /\
  (run demo_env [Attach 1; Destroyed 1] init).2 = [CStopSharing 1] /\
  (run demo_env [Attach 1; Closed 1; Output 1 "x"] init).2 =
    [CStopSharing 1; CBroadcastOutput "s1" "x"].
Proof. vm_compute. repeat split. Qed.

(** C10, amended: after any sequence of events, a terminal the
    decorator holds as shared (attached while shared and having a
    session, not detached since) answers a closed or destroyed event
    of its session with exactly one [stopSharing] call for it, and
    keeps passing its output to [broadcastOutput] under the captured
    session id; a terminal it does not hold (never attached, or
    detached) gets no call at all. Attaching a shared terminal with a
    session makes the decorator hold it; detaching makes it let go. *)
Theorem close_invokes_stopSharing (e : env) (evs : list tevent) (t : nat) :
  let st := (run e evs init).1 in
  (forall sid, sharedTerminals st !! t = Some sid ->
     step e (Closed t) st = (st, [CStopSharing t]) /\
     step e (Destroyed t) st = (st, [CStopSharing t]) /\
     (forall d, step e (Output t d) st = (st, [CBroadcastOutput sid d]))) /\
  (sharedTerminals st !! t = None ->
     step e (Closed t) st = (st, []) /\ step e (Destroyed t) st = (st, []) /\
     (forall d, step e (Output t d) st = (st, []))) /\
  (forall ss, getSharedSession e t = Some ss -> has_session e t = true ->
     exists sid, sharedTerminals (attach e t st) !! t = Some sid) /\
  sharedTerminals (detach t st) !! t = None.
Proof.
  intros st. pose proof (dinv_run e evs init dinv_init) as Hinv. fold st in Hinv.
  specialize (Hinv t) as Ht.
  split; [|split; [|split]].
  - intros sid Hs. rewrite Hs in Ht. simpl. rewrite !react_subs_of, Ht. simpl.
    repeat split. intros d. rewrite react_subs_of, Ht. reflexivity.
  - intros Hs. rewrite Hs in Ht. simpl. rewrite !react_subs_of, Ht. repeat split. intros d. rewrite react_subs_of, Ht. reflexivity.
  - intros ss Hss Hhs. unfold attach, isSessionShared, attachToSharedSession. rewrite Hss, Hhs.
    simpl. destruct (sharedTerminals st !! t) as [sid|] eqn:E.
    + exists sid. exact E.
    + exists (ss_id ss). simpl. apply lookup_insert_eq.
  - unfold detach, base_detach, detachFromSharedSession. simpl.
    destruct (sharedTerminals st !! t) eqn:E; simpl; [apply lookup_delete_eq | exact E].
Qed.

Lemma close_invokes_stopSharing_witness :
  let st := (run demo_env [Attach 1] init).1 in
  sharedTerminals st !! 1%nat = Some "s1"%string /\
  step demo_env (Closed 1) st = (st, [CStopSharing 1]) /\
  getSharedSession demo_env 1 = Some (mkShared "s1" Relay.ReadOnly) /\ has_session demo_env 1 = true /\
  ((forall sid, sharedTerminals st !! 1%nat = Some sid ->
     step demo_env (Closed 1) st = (st, [CStopSharing 1]) /\
     step demo_env (Destroyed 1) st = (st, [CStopSharing 1]) /\
     (forall d, step demo_env (Output 1 d) st = (st, [CBroadcastOutput sid d]))) /\
   (sharedTerminals st !! 1%nat = None ->
     step demo_env (Closed 1) st = (st, []) /\ step demo_env (Destroyed 1) st = (st, []) /\
     (forall d, step demo_env (Output 1 d) st = (st, []))) /\
   (forall ss, getSharedSession demo_env 1 = Some ss -> has_session demo_env 1 = true ->
     exists sid, sharedTerminals (attach demo_env 1 st) !! 1%nat = Some sid) /\
   sharedTerminals (detach 1 st) !! 1%nat = None).
Proof.
  pose proof (close_invokes_stopSharing demo_env [Attach 1] 1) as H.
  simpl in H |- *. split; [vm_compute; reflexivity|].
  split; [apply (proj1 H "s1"%string); vm_compute; reflexivity|].
  split; [reflexivity|]. split; [reflexivity|]. exact H.
Defined.

End DecoratorFacts.

(* ================================================================== *)
(** ** The host application's windows *)
(* ================================================================== *)

Module HostFacts.
Import Host.

Section Facts.
Context {W : Type} `{WindowApi W}.

Lemma filter_nil_of_existsb (f : W -> bool) l : existsb f l = false -> List.filter f l = [].
Proof.
  induction l as [|x l IH]; simpl; [reflexivity|].
  destruct (f x); [discriminate|exact IH].
Qed.

Lemma length_filter_filter (f g : W -> bool) l :
  (length (List.filter f (List.filter g l)) <= length (List.filter f l))%nat.
Proof.
  induction l as [|x l IH]; simpl; [lia|].
  destruct (g x); simpl; destruct (f x); simpl; lia.
Qed.

Lemma existsb_filter_length (f : W -> bool) l :
  existsb f l = true -> (1 <= length (List.filter f l))%nat.
Proof.
  induction l as [|x l IH]; simpl; [discriminate|].
  destruct (f x); simpl; [lia|exact IH].
Qed.

(** At most one main window, and one as soon as there is a window. *)
Definition one_main (h : host W) : Prop :=
  windows h = [] \/ length (List.filter isMainWindow (windows h)) = 1%nat.

Lemma one_main_step
  (Hmm : forall w, isMainWindow (makeMain w) = true)
  (Hpm : forall w, isMainWindow (present w) = isMainWindow w)
  (Hnew : forall n, isMainWindow (new_window n) = false)
  h ev : one_main h -> one_main (wstep h ev).
Proof.
  unfold one_main. intros Hh. destruct ev as [|id]; cbn [wstep].
  - unfold newWindow. cbn [windows].
    destruct (windows h) as [|x r] eqn:E.
    + right. cbn. rewrite Nat.eqb_refl. cbn. rewrite Hmm. reflexivity.
    + right. destruct Hh as [Hh|Hh]; [discriminate|].
      assert (Hl : Nat.eqb (length ((x :: r) ++ [new_window (created h)])) 1 = false)
        by (apply Nat.eqb_neq; rewrite length_app; simpl; lia).
      rewrite Hl, List.filter_app, length_app, Hh. cbn. rewrite Hnew. reflexivity.
  - unfold windowClosed. cbn [windows].
    remember (List.filter (fun x => negb (Nat.eqb (wid x) id)) (windows h)) as ws eqn:Hws.
    assert (Hle : (length (List.filter isMainWindow ws) <= 1)%nat).
    { pose proof (length_filter_filter isMainWindow (fun x => negb (Nat.eqb (wid x) id)) (windows h)) as L.
      rewrite <- Hws in L. destruct Hh as [Hh|Hh].
      - rewrite Hws, Hh. simpl. lia.
      - lia. }
    destruct (existsb isMainWindow ws) eqn:Ex; simpl.
    + right. pose proof (existsb_filter_length _ _ Ex). lia.
    + destruct ws as [|w0 rest]; [left; reflexivity|].
      right. simpl. rewrite Hpm, Hmm. simpl.
      simpl in Ex. apply orb_false_iff in Ex as [_ Ex].
      rewrite (filter_nil_of_existsb _ _ Ex). reflexivity.
Qed.

Lemma map_wid_mutate id f ws :
  (forall x, wid (f x) = wid x) -> map wid (mutate id f ws) = map wid ws.
Proof.
  intros Hf. unfold mutate. rewrite map_map. apply map_ext. intros x.
  destruct (Nat.eqb (wid x) id); [apply Hf|reflexivity].
Qed.

Lemma map_wid_filter id ws :
  map wid (List.filter (fun x => negb (Nat.eqb (wid x) id)) ws) =
  List.filter (fun i => negb (Nat.eqb i id)) (map wid ws).
Proof.
  induction ws as [|x ws IH]; simpl; [reflexivity|].
  destruct (negb (Nat.eqb (wid x) id)); simpl; [f_equal|]; exact IH.
Qed.

Lemma map_wid_newWindow
  (Hwn : forall n, wid (new_window n) = n) (Hwm : forall w, wid (makeMain w) = wid w) h :
  map wid (windows (newWindow h)) = map wid (windows h) ++ [created h].
Proof.
  unfold newWindow. cbn [windows].
  destruct (Nat.eqb (length (windows h ++ [new_window (created h)])) 1).
  - rewrite map_wid_mutate by exact Hwm. rewrite map_app. simpl. rewrite Hwn. reflexivity.
  - rewrite map_app. simpl. rewrite Hwn. reflexivity.
Qed.

Lemma map_wid_windowClosed
  (Hwm : forall w, wid (makeMain w) = wid w) (Hwp : forall w, wid (present w) = wid w) id h :
  map wid (windows (windowClosed id h)) =
  List.filter (fun i => negb (Nat.eqb i id)) (map wid (windows h)).
Proof.
  unfold windowClosed. cbn [windows]. rewrite <- map_wid_filter.
  destruct (negb (existsb isMainWindow (List.filter (fun x => negb (Nat.eqb (wid x) id)) (windows h))));
    [|reflexivity].
  destruct (List.filter (fun x => negb (Nat.eqb (wid x) id)) (windows h)) as [|w0 rest]; [reflexivity|].
  simpl. rewrite Hwp, Hwm. reflexivity.
Qed.

(** Window identities increase along [this.windows] and are below the
    number of windows created. *)
Definition ids_ok (h : host W) : Prop :=
  StronglySorted lt (map wid (windows h)) /\
  List.Forall (fun i => lt i (created h)) (map wid (windows h)).

Lemma SS_snoc (l : list nat) x :
  StronglySorted lt l -> List.Forall (fun y => lt y x) l -> StronglySorted lt (l ++ [x]).
Proof.
  induction l as [|a l IH]; intros Hs Hf; simpl.
  - constructor; constructor.
  - inversion Hs as [|? ? Hs' Ha]; subst. inversion Hf as [|? ? Hax Hf']; subst.
    constructor; [apply IH; assumption|].
    apply List.Forall_app. split; [exact Ha|]. constructor; [exact Hax|constructor].
Qed.

Lemma SS_filter (f : nat -> bool) l : StronglySorted lt l -> StronglySorted lt (List.filter f l).
Proof.
  induction l as [|a l IH]; intros Hs; simpl; [constructor|].
  inversion Hs as [|? ? Hs' Ha]; subst.
  destruct (f a); [constructor; [apply IH; exact Hs'|] | apply IH; exact Hs'].
  apply List.Forall_forall. intros y Hy. apply filter_In in Hy as [Hy _].
  rewrite List.Forall_forall in Ha. apply Ha, Hy.
Qed.

Lemma Forall_filter_nat (P : nat -> Prop) (f : nat -> bool) l :
  List.Forall P l -> List.Forall P (List.filter f l).
Proof.
  rewrite !List.Forall_forall. intros HP y Hy. apply filter_In in Hy as [Hy _]. apply HP, Hy.
Qed.

Lemma Forall_lt_mono (l : list nat) a b :
  (a <= b)%nat -> List.Forall (fun i => lt i a) l -> List.Forall (fun i => lt i b) l.
Proof. rewrite !List.Forall_forall. intros Hab Hl i Hi. specialize (Hl i Hi). lia. Qed.

Lemma SS_snoc_inv (l : list nat) x :
  StronglySorted lt (l ++ [x]) -> forall y, In y l -> lt y x.
Proof.
  induction l as [|a l IH]; simpl; [tauto|]. intros Hs y [<-|Hy].
  - inversion Hs as [|? ? _ Ha]; subst. rewrite List.Forall_forall in Ha.
    apply Ha, in_or_app. right; left; reflexivity.
  - inversion Hs; subst. apply IH; assumption.
Qed.

Lemma ids_ok_step
  (Hwn : forall n, wid (new_window n) = n)
  (Hwm : forall w, wid (makeMain w) = wid w)
  (Hwp : forall w, wid (present w) = wid w)
  h ev : ids_ok h -> ids_ok (wstep h ev).
Proof.
  intros [Hs Hf]. unfold ids_ok. destruct ev as [|id]; cbn [wstep].
  - rewrite (map_wid_newWindow Hwn Hwm).
    assert (Hc : created (newWindow h) = S (created h)) by reflexivity. rewrite Hc. split.
    + apply SS_snoc; assumption.
    + apply List.Forall_app. split.
      * apply (Forall_lt_mono _ (created h)); [lia|exact Hf].
      * constructor; [lia|constructor].
  - rewrite (map_wid_windowClosed Hwm Hwp).
    assert (Hc : created (windowClosed id h) = created h) by reflexivity. rewrite Hc. split.
    + apply SS_filter; exact Hs.
    + apply Forall_filter_nat; exact Hf.
Qed.

Lemma wrun_pres (P : host W -> Prop) (Hstep : forall h ev, P h -> P (wstep h ev)) evs h :
  P h -> P (wrun evs h).
Proof.
  unfold wrun. revert h. induction evs as [|ev evs IH]; intros h Hh; simpl; [exact Hh|].
  apply IH, Hstep, Hh.
Qed.

Lemma nth_error_snoc (A : Type) (l : list A) x : nth_error (l ++ [x]) (length (l ++ [x]) - 1) = Some x.
Proof.
  rewrite length_app. simpl length. rewrite Nat.add_sub.
  rewrite nth_error_app2 by lia. rewrite Nat.sub_diag. reflexivity.
Qed.

Lemma head_filter_find (f : W -> bool) l : head (List.filter f l) = List.find f l.
Proof. induction l as [|x l IH]; simpl; [reflexivity|]. destruct (f x); [reflexivity|exact IH]. Qed.

Lemma find_none_forallb (f : W -> bool) l :
  forallb f l = true -> List.find (fun w => negb (f w)) l = None.
Proof.
  induction l as [|x l IH]; simpl; [reflexivity|]. intros Hl.
  apply andb_true_iff in Hl as [Hx Hl]. rewrite Hx. simpl. apply IH, Hl.
Qed.

Lemma not_visible_not_present ws :
  forallb (fun x => negb (isVisible x)) ws = true ->
  existsb isVisible ws = false /\ existsb (fun x => isFocused x && isVisible x) ws = false.
Proof.
  induction ws as [|x ws IH]; simpl; [auto|]. intros Hx.
  apply andb_true_iff in Hx as [Hx Hr]. destruct (isVisible x); [discriminate|].
  rewrite andb_false_r. simpl. apply IH, Hr.
Qed.

(** [newWindow] and the [closed$] handler keep exactly one main window
    whenever there is a window at all: after any sequence of windows
    opened and closed, starting from none, either no window is left or
    exactly one of them is the main window. This assumes that
    [makeMain] makes a window main, that [present] does not change it
    and that a new window is not main before [makeMain]. *)
Theorem main_window_invariant
  (Hmm : forall w, isMainWindow (makeMain w) = true)
  (Hpm : forall w, isMainWindow (present w) = isMainWindow w)
  (Hnew : forall n, isMainWindow (new_window n) = false)
  (evs : list wevent) :
  let h := wrun evs host0 in
  windows h = [] \/ length (List.filter isMainWindow (windows h)) = 1%nat.
Proof.
  intros h. subst h. change (one_main (wrun evs host0)).
  apply wrun_pres; [intros h ev; apply one_main_step; assumption|]. left; reflexivity.
Qed.

(** [handleSecondInstance] presents every window and hands the command
    line to the most recently opened window still open: after any
    sequence of windows opened and closed, the windows afterwards are
    the open ones, each presented (with no window open, a new one is
    created first), and the window [passCliArguments] is called on is
    the one with the largest identity. This assumes window identities are given in creation
    order and kept by [makeMain] and [present]. *)
Theorem second_instance_last_window
  (Hwn : forall n, wid (new_window n) = n)
  (Hwm : forall w, wid (makeMain w) = wid w)
  (Hwp : forall w, wid (present w) = wid w)
  (evs : list wevent) :
  let h := wrun evs host0 in
  let '(h', target) := handleSecondInstance h in
  windows h' = map present (windows (if hasWindows h then h else newWindow h)) /\
  map wid (windows h') = (if hasWindows h then map wid (windows h) else [created h]) /\
  exists w, target = Some w /\ In w (windows h') /\
    forall x, In x (windows h') -> (wid x <= wid w)%nat.
Proof.
  intros h.
  assert (Hinv : ids_ok h).
  { subst h. apply wrun_pres; [intros h ev; apply ids_ok_step; assumption|].
    split; constructor. }
  destruct (handleSecondInstance h) as [h' target] eqn:Ehs.
  unfold handleSecondInstance in Ehs. injection Ehs as Eh' Et.
  set (h1 := if Nat.eqb (length (windows h)) 0 then newWindow h else h) in *.
  assert (E1 : map wid (windows h1) = if hasWindows h then map wid (windows h) else [created h]).
  { unfold h1, hasWindows. destruct (Nat.eqb (length (windows h)) 0) eqn:E; cbn [negb].
    - rewrite (map_wid_newWindow Hwn Hwm). apply Nat.eqb_eq, length_zero_iff_nil in E.
      rewrite E. reflexivity.
    - reflexivity. }
  assert (S1 : StronglySorted lt (map wid (windows h1))).
  { rewrite E1. destruct (hasWindows h); [exact (proj1 Hinv)|repeat constructor]. }
  assert (Hne : windows h1 <> []).
  { intros Hn. rewrite Hn in E1. unfold hasWindows in E1.
    destruct (windows h); simpl in E1; discriminate. }
  assert (Ew : windows h' = map present (windows h1)) by (rewrite <- Eh'; reflexivity).
  assert (Mw : map wid (windows h') = map wid (windows h1)).
  { rewrite Ew, map_map. apply map_ext. exact Hwp. }
  split.
  { rewrite Ew. unfold h1, hasWindows.
    destruct (Nat.eqb (length (windows h)) 0); reflexivity. }
  split; [rewrite Mw; exact E1|].
  destruct (exists_last Hne) as [l [x Ex]].
  exists (present x).
  assert (Ew' : windows h' = map present l ++ [present x]) by (rewrite Ew, Ex, map_app; reflexivity).
  split; [|split].
  - rewrite <- Et, Ex, map_app. apply nth_error_snoc.
  - rewrite Ew'. apply in_or_app. right; left; reflexivity.
  - intros y Hy. rewrite Ew, Ex in Hy. apply in_map_iff in Hy as [z [<- Hz]].
    rewrite !Hwp. rewrite Ex, map_app in S1. simpl in S1.
    apply in_app_or in Hz as [Hz|[<-|[]]]; [|lia].
    pose proof (SS_snoc_inv _ _ S1 (wid z) (in_map wid l z Hz)). lia.
Qed.

(** [send] opens a window only when there is none; with windows, it
    goes to the first one not destroyed, and when every window is
    destroyed it opens nothing and calls [send] on [undefined] (a
    TypeError). This assumes a window just created and made main is not
    destroyed. *)
Theorem send_target
  (Hd : forall n, isDestroyed (makeMain (new_window n)) = false) (h : host W) :
  (windows h = [] -> send h = (newWindow h, Some (makeMain (new_window (created h))))) /\
  (windows h <> [] -> send h = (h, List.find (fun w => negb (isDestroyed w)) (windows h))) /\
  (windows h <> [] -> forallb isDestroyed (windows h) = true -> send h = (h, None)).
Proof.
  unfold send, hasWindows. split; [|split].
  - intros E. rewrite E. cbn [length Nat.eqb negb].
    unfold newWindow. rewrite E. cbn. rewrite Nat.eqb_refl, Hd. reflexivity.
  - intros Hne.
    assert (Hw : Nat.eqb (length (windows h)) 0 = false)
      by (apply Nat.eqb_neq; intros Hl; apply Hne, length_zero_iff_nil, Hl).
    rewrite Hw. cbn [negb]. rewrite head_filter_find. reflexivity.
  - intros Hne Hall.
    assert (Hw : Nat.eqb (length (windows h)) 0 = false)
      by (apply Nat.eqb_neq; intros Hl; apply Hne, length_zero_iff_nil, Hl).
    rewrite Hw. cbn [negb]. rewrite head_filter_find, find_none_forallb by exact Hall. reflexivity.
Qed.

(** The global hotkey presents every window when none is visible; with
    a window docked on top, it hides them all as soon as one is
    visible, focused or not; with none docked, visible windows that are
    not focused are presented, not hidden. *)
Theorem hotkey_present_or_hide (ws : list W) :
  (forallb (fun x => negb (isVisible x)) ws = true -> onGlobalHotkey ws = map present ws) /\
  (existsb isDockedOnTop ws = true -> existsb isVisible ws = true ->
     onGlobalHotkey ws = map hide ws) /\
  (existsb isDockedOnTop ws = false ->
     existsb (fun x => isFocused x && isVisible x) ws = false ->
     onGlobalHotkey ws = map present ws).
Proof.
  unfold onGlobalHotkey. split; [|split].
  - intros Hv. destruct (not_visible_not_present ws Hv) as [E1 E2].
    rewrite E1, E2. destruct (existsb isDockedOnTop ws); reflexivity.
  - intros Hd Hv. rewrite Hd, Hv. reflexivity.
  - intros Hd Hf. rewrite Hd, Hf. reflexivity.
Qed.

End Facts.

Import HostScenarios.

Lemma main_window_invariant_witness :
  map w_id (windows (wrun evs3 host0)) = [1; 2]%nat /\
  (let h := wrun evs3 host0 in
   windows h = [] \/ length (List.filter isMainWindow (windows h)) = 1%nat).
Proof.
  split; [vm_compute; reflexivity|].
  apply (main_window_invariant (W:=win)); intros; reflexivity.
Defined.

Lemma second_instance_last_window_witness :
  option_map w_id (handleSecondInstance (wrun evs3 host0)).2 = Some 2%nat /\
  (let h := wrun evs3 host0 in
   let '(h', target) := handleSecondInstance h in
   windows h' = map present (windows (if hasWindows h then h else newWindow h)) /\
   map wid (windows h') = (if hasWindows h then map wid (windows h) else [created h]) /\
   exists w, target = Some w /\ In w (windows h') /\
     forall x, In x (windows h') -> (wid x <= wid w)%nat).
Proof.
  split; [vm_compute; reflexivity|].
  apply (second_instance_last_window (W:=win)); intros; reflexivity.
Defined.

Lemma send_target_witness :
  let h := mkHost [mkWin 0 true false true false true] 1 in
  send h = (h, None) /\
  ((windows h = [] -> send h = (newWindow h, Some (makeMain (new_window (created h))))) /\
   (windows h <> [] -> send h = (h, List.find (fun w => negb (isDestroyed w)) (windows h))) /\
   (windows h <> [] -> forallb isDestroyed (windows h) = true -> send h = (h, None))).
Proof.
  cbv zeta. split; [vm_compute; reflexivity|].
  apply (send_target (W:=win)). intros; reflexivity.
Defined.

Lemma hotkey_present_or_hide_witness :
  let ws := [mkWin 0 true false true true false; mkWin 1 false false false false false] in
  onGlobalHotkey ws = map hide ws /\
  ((forallb (fun x => negb (isVisible x)) ws = true -> onGlobalHotkey ws = map present ws) /\
   (existsb isDockedOnTop ws = true -> existsb isVisible ws = true ->
      onGlobalHotkey ws = map hide ws) /\
   (existsb isDockedOnTop ws = false ->
      existsb (fun x => isFocused x && isVisible x) ws = false ->
      onGlobalHotkey ws = map present ws)).
Proof.
  cbv zeta. split; [|apply (hotkey_present_or_hide (W:=win))].
  apply (proj1 (proj2 (hotkey_present_or_hide (W:=win) _))); reflexivity.
Defined.

End HostFacts.

(* ================================================================== *)
(** ** The constructor's command-line switches and the quit handlers *)
(* ================================================================== *)

Module StartupFacts.
Import Startup.

Definition transparent_switch : switch := ("enable-transparent-visuals"%string, None).
Definition discrete_gpu_switch : switch := ("force_discrete_gpu"%string, Some "0"%string).

Lemma no_valueless_flag (x : switch) l :
  x.2 = None -> ~ In x (map (fun f : string * string => (f.1, Some f.2)) l).
Proof. intros Hx Hin. apply in_map_iff in Hin as [f [<- _]]. discriminate. Qed.

Ltac switch_cases :=
  repeat match goal with
  | |- context [match appearance_opacity ?c with _ => _ end] =>
      let E := fresh "Eo" in destruct (appearance_opacity c) eqn:E
  | |- context [if ?b then _ else _] => let E := fresh "E" in destruct b eqn:E
  end.

Lemma Qeq_bool_false q r : Qeq_bool q r = false <-> ~ (q == r)%Q.
Proof.
  split; [apply Qeq_bool_neq|].
  intros Hn. destruct (Qeq_bool q r) eqn:E; [apply Qeq_bool_iff in E; contradiction|reflexivity].
Qed.

Lemma in_switches_transparent pl c :
  In transparent_switch (constructor_switches pl c).1 <->
  pl = Linux /\ exists q, appearance_opacity c = Some q /\ Qeq_bool q 0 = false /\ Qeq_bool q 1 = false.
Proof.
  unfold constructor_switches.
  destruct pl; destruct (appearance_opacity c) as [q|] eqn:Eo;
    try destruct (Qeq_bool q 0) eqn:E0; try destruct (Qeq_bool q 1) eqn:E1;
    destruct (hacks_disableGPU c); cbn; rewrite ?E0, ?E1; cbn.
  all: split; [intros Hin | intros (Hpl & q' & Hq & H0' & H1')].
  all: try (split; [reflexivity|]; exists q; split; [reflexivity|]; split; assumption).
  all: try (right; left; reflexivity).
  all: try discriminate.
  all: try (injection Hq as <-; congruence).
  all: repeat (destruct Hin as [Hin|Hin]; [discriminate Hin|]);
         exfalso; exact (no_valueless_flag transparent_switch _ eq_refl Hin).
Qed.

(** On Linux, the constructor asks for transparent visuals (and turns
    hardware acceleration off) exactly when an opacity other than 0 and
    1 is configured: an opacity of 0, being falsy, counts as 1. It
    never does on the other platforms. *)
Theorem transparent_visuals_opacity (c : store) :
  (forall pl, pl <> Linux -> ~ In transparent_switch (constructor_switches pl c).1) /\
  (In transparent_switch (constructor_switches Linux c).1 <->
     exists q, appearance_opacity c = Some q /\ ~ (q == 0)%Q /\ ~ (q == 1)%Q) /\
  (forall q, appearance_opacity c = Some q -> ~ (q == 0)%Q -> ~ (q == 1)%Q ->
     (constructor_switches Linux c).2 = true).
Proof.
  split; [|split].
  - intros pl Hpl Hin. apply in_switches_transparent in Hin as [-> _]. congruence.
  - rewrite in_switches_transparent. split.
    + intros [_ [q [Hq [H0 H1]]]]. exists q. split; [exact Hq|].
      split; apply Qeq_bool_false; assumption.
    + intros [q [Hq [H0 H1]]]. split; [reflexivity|]. exists q. split; [exact Hq|].
      split; apply Qeq_bool_false; assumption.
  - intros q Hq H0 H1. unfold constructor_switches. rewrite Hq.
    apply Qeq_bool_false in H0, H1. rewrite H0, H1. cbn.
    destruct (hacks_disableGPU c); reflexivity.
Qed.

(** Solves [l = ?pre ++ tl] when [l] is a literal list ending in [tl]. *)
Ltac split_prefix :=
  match goal with
  | |- ?lhs = ?pre ++ ?tl =>
      let rec go t :=
        match t with
        | tl => constr:(@nil switch)
        | ?a :: ?r => let r' := go r in constr:(a :: r')
        end in
      let p := go lhs in unify pre p
  end.

(** The [force_discrete_gpu=0] default applies only when no [flags] are
    configured: a configured list, even an empty one, replaces it, and
    its flags are appended in order after every other switch. *)
Theorem flags_default_only_when_unset (pl : platform) (c : store) :
  (flags c = None -> In discrete_gpu_switch (constructor_switches pl c).1) /\
  (forall l, flags c = Some l ->
     exists pre, (constructor_switches pl c).1 = pre ++ map (fun f => (f.1, Some f.2)) l /\
       ~ In discrete_gpu_switch pre).
Proof.
  unfold constructor_switches. split.
  - intros Hf. rewrite Hf. destruct pl; switch_cases; cbn; tauto.
  - intros l Hf. rewrite Hf. destruct pl; switch_cases; cbn.
    all: eexists; split; [split_prefix; reflexivity|].
    all: cbn; intros Hin; repeat (destruct Hin as [Hin|Hin]; [discriminate Hin|]); exact Hin.
Qed.

(** On macOS, closing the last window quits only once a quit has been
    requested; elsewhere it always quits. [before-quit] requests it and
    stops the sharing server: afterwards it is not running and, if it
    was, every session is gone, every viewer transport is closed and
    its port is released. *)
Theorem quit_handlers (l : life) :
  (quitRequested l = false -> window_all_closed Darwin l = l) /\
  (forall pl, pl <> Darwin -> quitting (window_all_closed pl l) = true) /\
  (let l' := before_quit l in
   quitRequested l' = true /\ Relay.running (server l') = false /\
   (Relay.running (server l) = true ->
      Relay.sessions (server l') = ∅ /\
      (forall c cn, Relay.conns (server l') !! c = Some cn -> Relay.c_open cn = false) /\
      ~ In (Relay.port (server l)) (Relay.in_use (network l'))) /\
   forall pl, quitting (window_all_closed pl l') = true).
Proof.
  split; [|split].
  - intros Hq. unfold window_all_closed. rewrite Hq. reflexivity.
  - intros pl Hpl. unfold window_all_closed. destruct pl; [|congruence| |];
      destruct (quitRequested l); reflexivity.
  - unfold before_quit, Relay.stop. destruct (Relay.running (server l)) eqn:Er.
    + cbn. split; [reflexivity|]. split; [reflexivity|]. split; [|intros pl; unfold window_all_closed; reflexivity].
      intros _. split; [reflexivity|]. split.
      * intros c cn Hc. rewrite lookup_fmap in Hc.
        destruct (Relay.conns (server l) !! c); simpl in Hc; [|discriminate].
        injection Hc as <-. reflexivity.
      * intros Hin. apply list_elem_of_In, list_elem_of_filter in Hin as [Hp _].
        rewrite Z.eqb_refl in Hp. exact Hp.
    + cbn. split; [reflexivity|]. split; [exact Er|]. split; [intros; discriminate|].
      intros pl. unfold window_all_closed. reflexivity.
Qed.

Lemma transparent_visuals_opacity_witness :
  let c := mkStore (Some (1 # 2)%Q) false None in
  In transparent_switch (constructor_switches Linux c).1 /\
  ((forall pl, pl <> Linux -> ~ In transparent_switch (constructor_switches pl c).1) /\
   (In transparent_switch (constructor_switches Linux c).1 <->
      exists q, appearance_opacity c = Some q /\ ~ (q == 0)%Q /\ ~ (q == 1)%Q) /\
   (forall q, appearance_opacity c = Some q -> ~ (q == 0)%Q -> ~ (q == 1)%Q ->
      (constructor_switches Linux c).2 = true)).
Proof.
  cbv zeta. split; [vm_compute; right; left; reflexivity|].
  apply transparent_visuals_opacity.
Defined.

Lemma flags_default_only_when_unset_witness :
  let c := mkStore None false (Some []) in
  ~ In discrete_gpu_switch (constructor_switches Linux c).1 /\
  ((flags c = None -> In discrete_gpu_switch (constructor_switches Linux c).1) /\
   (forall l, flags c = Some l ->
      exists pre, (constructor_switches Linux c).1 = pre ++ map (fun f => (f.1, Some f.2)) l /\
        ~ In discrete_gpu_switch pre)).
Proof.
  cbv zeta. split; [|apply flags_default_only_when_unset].
  destruct (proj2 (flags_default_only_when_unset Linux (mkStore None false (Some []))) [] eq_refl)
    as [pre [Hpre Hn]].
  rewrite Hpre, app_nil_r. exact Hn.
Defined.

Lemma quit_handlers_witness :
  let l := mkLife false Scenarios.empty_server Scenarios.net0 false in
  window_all_closed Darwin l = l /\
  ((quitRequested l = false -> window_all_closed Darwin l = l) /\
   (forall pl, pl <> Darwin -> quitting (window_all_closed pl l) = true) /\
   (let l' := before_quit l in
    quitRequested l' = true /\ Relay.running (server l') = false /\
    (Relay.running (server l) = true ->
       Relay.sessions (server l') = ∅ /\
       (forall c cn, Relay.conns (server l') !! c = Some cn -> Relay.c_open cn = false) /\
       ~ In (Relay.port (server l)) (Relay.in_use (network l'))) /\
    forall pl, quitting (window_all_closed pl l') = true)).
Proof.
  cbv zeta. split; [|apply quit_handlers].
  apply (proj1 (quit_handlers (mkLife false Scenarios.empty_server Scenarios.net0 false))).
  reflexivity.
Defined.

End StartupFacts.

(* ================================================================== *)
(** ** The start-server, stop-server and init paths of app.ts *)
(* ================================================================== *)

Module IpcFacts.
Import Relay Scenarios.

(** [start-server] notifies the windows only on success: a failed start
    sends nothing and changes nothing; a successful one sends every
    window, in order, one [server-status-changed] with the port and
    host it replied with, and the server is running on that port. *)
Theorem start_server_notifies windows cfg p h st nt :
  let '(st', nt', reply, msgs) := App.start_server windows cfg p h st nt in
  (forall e, reply = App.StartFailed e -> msgs = [] /\ st' = st /\ nt' = nt) /\
  (forall port0 host0, reply = App.StartOk port0 host0 ->
     msgs = map (fun w => (w, App.ServerStatusChanged true port0 host0)) windows /\
     running st' = true /\ port st' = port0).
Proof.
  unfold App.start_server, start.
  destruct (running st) eqn:Er; [|destruct (bind_error _ _ nt) eqn:Eb]; cbn.
  - split; [intros e He; discriminate|].
    intros port0 host0 Hr. injection Hr as <- <-. split; [reflexivity|]. split; [exact Er|reflexivity].
  - split; [intros e He; injection He as <-; auto|]. intros port0 host0 Hr; discriminate.
  - split; [intros e He; discriminate|].
    intros port0 host0 Hr. injection Hr as <- <-. auto.
Qed.

(** While the server runs, [start-server] binds nothing and replies
    with the running port, but with the host it was asked for (or the
    configured one), not the one the server is bound to; the windows
    are told that host too. *)
Theorem start_server_while_running windows cfg p h st nt (Hrun : running st = true) :
  let bindHost := App.or_str h (App.or_str (App.cfg_bindHost cfg) "0.0.0.0") in
  App.start_server windows cfg p h st nt =
    (st, nt, App.StartOk (port st) bindHost,
     App.broadcast windows (App.ServerStatusChanged true (port st) bindHost)).
Proof. intros bindHost. unfold App.start_server, start. rewrite Hrun. reflexivity. Qed.



Lemma start_server_notifies_witness :
  App.start_server [1; 2]%nat cfg5000 None None empty_server net0 =
    (mkServer ∅ ∅ true 5000 "0.0.0.0", mkNet [5000] 49152 ["0.0.0.0"; "127.0.0.1"]%string,
     App.StartOk 5000 "0.0.0.0",
     [(1%nat, App.ServerStatusChanged true 5000 "0.0.0.0"); (2%nat, App.ServerStatusChanged true 5000 "0.0.0.0")]) /\
  (let '(st', nt', reply, msgs) := App.start_server [1; 2]%nat cfg5000 None None empty_server net0 in
   (forall e, reply = App.StartFailed e -> msgs = [] /\ st' = empty_server /\ nt' = net0) /\
   (forall port0 host0, reply = App.StartOk port0 host0 ->
      msgs = map (fun w => (w, App.ServerStatusChanged true port0 host0)) [1; 2]%nat /\
      running st' = true /\ port st' = port0)).
Proof.
  split; [vm_compute; reflexivity|]. apply start_server_notifies.
Defined.

Lemma start_server_while_running_witness :
  let st := (start 0 "127.0.0.1" empty_server net0).1.1 in
  running st = true /\ host st = "127.0.0.1"%string /\
  App.start_server [0%nat] (App.mkConfig None None) None None st net0 =
    (st, net0, App.StartOk (port st) "0.0.0.0",
     App.broadcast [0%nat] (App.ServerStatusChanged true (port st) "0.0.0.0")).
Proof.
  cbv zeta. split; [reflexivity|]. split; [reflexivity|].
  exact (start_server_while_running [0%nat] (App.mkConfig None None) None None ((start 0 "127.0.0.1" empty_server net0).1.1) net0 eq_refl).
Defined.


End IpcFacts.

(* ================================================================== *)
(** ** The context menus of part_010 *)
(* ================================================================== *)

Module MenuFacts.
Import Menus.

(** [View sharing details] shows a remaining time only when the share
    expires at least 30 seconds from now, as the nearest whole number
    of minutes (at least 1); a share without expiry or expiring sooner
    shows none. *)
Theorem details_expiresIn_minutes (t now : Z) :
  details_expiresIn None now = None /\
  (t - now < 30000 -> details_expiresIn (Some t) now = None) /\
  (30000 <= t - now -> exists m, details_expiresIn (Some t) now = Some m /\ 1 <= m /\
     m * 60000 - 30000 <= t - now < m * 60000 + 30000).
Proof.
  unfold details_expiresIn, round_minutes. split; [reflexivity|].
  pose proof (Z.div_mod (2 * (t - now) + 60000) 120000 ltac:(lia)) as Hd.
  pose proof (Z.mod_pos_bound (2 * (t - now) + 60000) 120000 ltac:(lia)) as Hm.
  set (q := (2 * (t - now) + 60000) / 120000) in *.
  set (r := (2 * (t - now) + 60000) mod 120000) in *.
  split.
  - intros Hlt. assert (Hq : q <= 0) by lia.
    destruct (0 <? q) eqn:E; [apply Z.ltb_lt in E; lia|reflexivity].
  - intros Hge. assert (Hq : 1 <= q) by lia.
    exists q. destruct (0 <? q) eqn:E; [|apply Z.ltb_ge in E; lia].
    split; [reflexivity|]. lia.
Qed.

(** [shareWithMode] always shows exactly one notification. It opens the
    modal, with the chosen mode, 0 viewers and the URL, and shows the
    "copied to clipboard" notice exactly when the share produced a
    non-empty URL and [copyShareableLink] did not reject; the flag it
    resolves to is ignored, so a copy that resolves to false still opens
    the modal with that notice. Otherwise the notification is an error. *)
Theorem shareWithMode_one_notification r copy md :
  shareWithMode r (CopyResolved false) md = shareWithMode r (CopyResolved true) md /\
  let '(mo, notes) := shareWithMode r copy md in
  length notes = 1%nat /\
  (forall m, mo = Some m -> exists url ok, r = Resolved (Some url) /\ url <> ""%string /\
     copy = CopyResolved ok /\
     m = mkModal url md 0 /\ notes = [Notice "Session shared! Share URL copied to clipboard."]) /\
  (forall url ok, r = Resolved (Some url) -> url <> ""%string -> copy = CopyResolved ok ->
     mo = Some (mkModal url md 0)) /\
  (mo = None -> exists k p, notes = [Error k p]).
Proof.
  split; [destruct r as [[url|]|e]; cbn; [destruct (String.eqb url "")| |]; reflexivity|].
  destruct r as [[url|]|e]; [destruct (String.eqb url "") eqn:Eu; [|destruct copy as [ok|e]]| |]; cbn; rewrite ?Eu.
  all: split; [reflexivity|].
  all: split; [intros m Hm; first [discriminate | injection Hm as <-;
         exists url, ok; split; [reflexivity|]; split; [apply String.eqb_neq, Eu|]; auto]|].
  all: split; [intros url' ok' Hr Hne Hc; first [discriminate | injection Hr as <-;
         first [injection Hc as <-; reflexivity | apply String.eqb_eq in Eu; contradiction]]
              |intros Hn; try discriminate Hn; eauto].
Qed.

Lemma drop_ws_all l : forallb is_ws l = true -> drop_ws l = [].
Proof.
  induction l as [|c l IH]; simpl; [reflexivity|]. intros Hl.
  apply andb_true_iff in Hl as [Hc Hl]. rewrite Hc. apply IH, Hl.
Qed.

Lemma trim_ws d : forallb is_ws (String.list_ascii_of_string d) = true -> trim d = ""%string.
Proof. intros Hd. unfold trim. rewrite (drop_ws_all _ Hd). reflexivity. Qed.

(** When a log directory is set, [Set log directory] clears it without
    asking for one, keeps the file name template and the append flag,
    and takes [enabled] as [enabled ?? true]; the whole [sessionLog] is
    deleted only when [enabled] is explicitly false, [append] is not
    true and the template is empty or absent. *)
Theorem set_log_directory_clears (l : sessionLog) (pick : pick_result)
  (Hd : hasDirectory (Some l) = true) :
  exists r, set_log_directory (Some l) pick = LogSaved r /\
  (r = None <-> sl_enabled l = Some false /\ truthy_bool (sl_append l) = false /\
                truthy_str (sl_filenameTemplate l) = false) /\
  (forall n, r = Some n -> sl_directory n = None /\ sl_enabled n = Some (enabled_or_true (Some l)) /\
      sl_filenameTemplate n = sl_filenameTemplate l /\ sl_append n = sl_append l).
Proof.
  unfold set_log_directory. rewrite Hd. unfold enabled_or_true, field.
  destruct (sl_enabled l) as [[|]|]; destruct (sl_append l) as [[|]|];
    destruct (sl_filenameTemplate l) as [s|]; try destruct (String.eqb s "") eqn:Es; cbn; rewrite ?Es; cbn.
  all: eexists; split; [reflexivity|].
  all: split; [split; [intros X; first [discriminate X | repeat split; rewrite ?Es; reflexivity]
                      | intros (X1 & X2 & X3); rewrite ?Es in X3; congruence]
              | intros n X; first [discriminate X | injection X as <-; repeat split]].
Qed.

(** When no directory is set (absent, empty or only blanks),
    [Set log directory] asks for one: a cancelled or empty pick changes
    nothing, a failing picker shows an error, and a picked directory is
    stored with the template and append flag kept and [enabled ?? true];
    the [sessionLog] is then never deleted. *)
Theorem set_log_directory_prompts (sl : option sessionLog)
  (Hd : match field sl_directory sl with
        | None => True
        | Some d => forallb is_ws (String.list_ascii_of_string d) = true
        end) :
  hasDirectory sl = false /\
  set_log_directory sl PickFailed = LogError /\
  set_log_directory sl (Picked None) = LogUnchanged /\
  set_log_directory sl (Picked (Some "")) = LogUnchanged /\
  (forall d, d <> ""%string ->
     set_log_directory sl (Picked (Some d)) =
       LogSaved (Some (mkLog (Some (enabled_or_true sl)) (Some d)
                             (field sl_filenameTemplate sl) (field sl_append sl)))).
Proof.
  assert (Hh : hasDirectory sl = false).
  { unfold hasDirectory. destruct sl as [l|]; [|reflexivity]. cbn in Hd.
    destruct (sl_directory l) as [d|]; [|reflexivity]. rewrite trim_ws by exact Hd. reflexivity. }
  unfold set_log_directory. rewrite Hh.
  split; [reflexivity|]. split; [reflexivity|]. split; [reflexivity|]. split; [reflexivity|].
  intros d Hne. apply String.eqb_neq in Hne. cbn. rewrite Hne. cbn.
  rewrite !orb_true_r. reflexivity.
Qed.

(** [Use current working directory for logs] takes the directory the
    session reports and falls back to the profile's [cwd] option only
    when the session reports none: an empty directory from the session
    is an error, even with a [cwd] option. A non-empty one is stored as
    the log directory, the template and append flag are kept, and the
    folder is opened except on the web platform. *)
Theorem use_cwd_no_fallback_on_empty (sl : option sessionLog) (oc : option string) (web : bool) :
  use_cwd sl (Some "") oc web = CwdError /\
  use_cwd sl None oc web = use_cwd sl oc None web /\
  (forall c, c <> ""%string ->
     use_cwd sl (Some c) oc web =
       CwdSet (mkLog (Some (enabled_or_true sl)) (Some c) (field sl_filenameTemplate sl) (field sl_append sl))
              (if web then None else Some c)).
Proof.
  unfold use_cwd. split; [reflexivity|]. split; [destruct oc; reflexivity|].
  intros c Hc. apply String.eqb_neq in Hc. rewrite Hc. reflexivity.
Qed.

Lemma details_expiresIn_minutes_witness :
  details_expiresIn (Some 90000) 0 = Some 2 /\ details_expiresIn (Some 29999) 0 = None /\
  (details_expiresIn None 0 = None /\
   (90000 - 0 < 30000 -> details_expiresIn (Some 90000) 0 = None) /\
   (30000 <= 90000 - 0 -> exists m, details_expiresIn (Some 90000) 0 = Some m /\ 1 <= m /\
      m * 60000 - 30000 <= 90000 - 0 < m * 60000 + 30000)).
Proof.
  split; [reflexivity|]. split; [reflexivity|]. apply details_expiresIn_minutes.
Defined.

Lemma shareWithMode_one_notification_witness :
  let r := Resolved (Some "ws://h/s1"%string) in
  shareWithMode r (CopyResolved false) Relay.Interactive =
    (Some (mkModal "ws://h/s1" Relay.Interactive 0),
     [Notice "Session shared! Share URL copied to clipboard."]) /\
  (shareWithMode r (CopyResolved false) Relay.Interactive =
     shareWithMode r (CopyResolved true) Relay.Interactive /\
   let '(mo, notes) := shareWithMode r (CopyResolved false) Relay.Interactive in
   length notes = 1%nat /\
   (forall m, mo = Some m -> exists url ok, r = Resolved (Some url) /\ url <> ""%string /\
      CopyResolved false = CopyResolved ok /\
      m = mkModal url Relay.Interactive 0 /\
      notes = [Notice "Session shared! Share URL copied to clipboard."]) /\
   (forall url ok, r = Resolved (Some url) -> url <> ""%string -> CopyResolved false = CopyResolved ok ->
      mo = Some (mkModal url Relay.Interactive 0)) /\
   (mo = None -> exists k p, notes = [Error k p])).
Proof.
  cbv zeta. split; [reflexivity|]. apply shareWithMode_one_notification.
Defined.

Lemma set_log_directory_clears_witness :
  let l := mkLog (Some false) (Some "/tmp/logs") None None in
  hasDirectory (Some l) = true /\ set_log_directory (Some l) PickFailed = LogSaved None /\
  exists r, set_log_directory (Some l) PickFailed = LogSaved r /\
  (r = None <-> sl_enabled l = Some false /\ truthy_bool (sl_append l) = false /\
                truthy_str (sl_filenameTemplate l) = false) /\
  (forall n, r = Some n -> sl_directory n = None /\ sl_enabled n = Some (enabled_or_true (Some l)) /\
      sl_filenameTemplate n = sl_filenameTemplate l /\ sl_append n = sl_append l).
Proof.
  cbv zeta. split; [vm_compute; reflexivity|]. split; [vm_compute; reflexivity|].
  apply set_log_directory_clears. vm_compute. reflexivity.
Defined.

Lemma set_log_directory_prompts_witness :
  let sl := Some (mkLog None (Some "  ") (Some "log") None) in
  hasDirectory sl = false /\
  set_log_directory sl PickFailed = LogError /\
  set_log_directory sl (Picked None) = LogUnchanged /\
  set_log_directory sl (Picked (Some "")) = LogUnchanged /\
  (forall d, d <> ""%string ->
     set_log_directory sl (Picked (Some d)) =
       LogSaved (Some (mkLog (Some (enabled_or_true sl)) (Some d)
                             (field sl_filenameTemplate sl) (field sl_append sl)))).
Proof.
  cbv zeta. apply set_log_directory_prompts. vm_compute. reflexivity.
Defined.

End MenuFacts.

(* ================================================================== *)
(** ** The decorator: attaching twice, and the subscriptions kept *)
(* ================================================================== *)

Module DecoratorMoreFacts.
Import Decorator Scenarios.


(** After any sequence of attach, detach and session events, a terminal
    holds either no subscription of the decorator or exactly the three
    of [attachToSharedSession], for the session id it is shared under:
    output, closed, destroyed, in that order. *)
Theorem subscriptions_per_terminal (e : env) (evs : list tevent) (t : nat) :
  let st := (run e evs init).1 in
  (DecoratorFacts.subs_of t st = [] /\ sharedTerminals st !! t = None) \/
  exists sid, sharedTerminals st !! t = Some sid /\
    DecoratorFacts.subs_of t st = [(t, OnOutput sid); (t, OnClosed); (t, OnDestroyed)].
Proof.
  intros st. pose proof (DecoratorFacts.dinv_run e evs init DecoratorFacts.dinv_init t) as Ht.
  fold st in Ht. destruct (sharedTerminals st !! t) as [sid|] eqn:E.
  - right. exists sid. split; [reflexivity|exact Ht].
  - left. split; [exact Ht|reflexivity].
Qed.

End DecoratorMoreFacts.
